(** * IC_MBP_docking: the PyMOL command script, embedded and verified

    The script [PyMol/IC_MBP_docking.py] registers six commands with the
    molecular-graphics host ([cmd.extend]).  Each command is a straight
    sequence of calls into the host API ([cmd.get], [cmd.set],
    [cmd.select], ...), with one loop in [interfaceResidues].

    The embedding keeps that shape.  A command is a [script]: a tree whose
    nodes are the host calls the Python code makes, in program order, and
    whose branches are indexed by what the host answers.  A run pairs every
    call with the host's reply; the host itself stays abstract (every reply
    is possible), except where a statement needs the session bookkeeping of
    names, settings and colours, which is given as a replay of the trace. *)

From Stdlib Require Import ZArith Ascii String List.
From Stdlib Require Import Floats.SpecFloat.
From stdpp Require Import gmap strings list.

Open Scope Z_scope.

(** ** Python values *)

(** Python floats are IEEE binary64 numbers: [spec_float] at precision 53
    and maximal exponent 1024. *)
Abbreviation pyfloat := spec_float.

Definition prec64 : Z := 53.
Definition emax64 : Z := 1024.

(** [float(z)] for an integer that is in range: round to nearest, ties to
    even. *)
Definition float_of_Z (z : Z) : pyfloat := binary_normalize prec64 emax64 z 0 false.

(** A decimal literal [m * 10^-k] of the source text, read as Python reads
    it.  Both [m] and [10^k] are exact binary64 numbers for every literal of
    the script (|m| < 2^53, k <= 22), so the one rounding of the division is
    the rounding of the literal. *)
Definition decimal (m : Z) (k : Z) : pyfloat :=
  SFdiv prec64 emax64 (float_of_Z m) (float_of_Z (10 ^ k)).

Arguments float_of_Z : simpl never.
Arguments decimal : simpl never.

(** [abs(x)] and [x >= y] on floats. *)
Definition float_abs (x : pyfloat) : pyfloat := SFabs x.
Definition float_ge (x y : pyfloat) : bool := SFleb y x.
Definition float_le (x y : pyfloat) : bool := SFleb x y.

Definition is_nan (x : pyfloat) : bool :=
  match x with S754_nan => true | _ => false end.

#[warnings="-register-all"]
Inductive pyval : Type :=
| PyNone
| PyBool (b : bool)
| PyInt (z : Z)
| PyFloat (f : pyfloat)
| PyStr (s : string)
| PyTuple (items : list pyval)
| PyList (items : list pyval).

(** A raised exception: its class and its message. *)
Record pyexn : Type := Exn { exn_class : string; exn_msg : string }.

Definition ValueError : pyexn := Exn "ValueError" "could not convert string to float".
Definition TypeError : pyexn := Exn "TypeError" "float() argument must be a string or a real number".
Definition OverflowError : pyexn := Exn "OverflowError" "int too large to convert to float".
Definition AttributeError : pyexn := Exn "AttributeError" "'module' object has no attribute 'r'".

(** The part of the Python runtime the script relies on and that is not
    written out here: how [float] reads a string ([None] when it raises
    [ValueError]). *)
Class PyRuntime : Type := { float_of_str : string → option pyfloat }.

(** The builtin [float(v)]. *)
Definition float `{PyRuntime} (v : pyval) : pyexn + pyfloat :=
  match v with
  | PyFloat f => inr f
  | PyInt z =>
      match float_of_Z z with
      | S754_infinity _ => inl OverflowError
      | f => inr f
      end
  | PyBool b => inr (float_of_Z (if b then 1 else 0))
  | PyStr s =>
      match float_of_str s with
      | Some f => inr f
      | None => inl ValueError
      end
  | PyNone | PyTuple _ | PyList _ => inl TypeError
  end.

(** [v == s] for a string literal [s]: only an equal string compares equal;
    an integer never equals a string. *)
Definition py_eq_str (v : pyval) (s : string) : bool :=
  match v with
  | PyStr s' => String.eqb s' s
  | _ => false
  end.

(** ** String helpers: [str.split] and [str.replace] *)

(** [s.split(sep)] for a one-character separator; never the empty list. *)
Fixpoint split_on (sep : ascii) (s : string) : list string :=
  match s with
  | EmptyString => [EmptyString]
  | String c s' =>
      if Ascii.eqb c sep then EmptyString :: split_on sep s'
      else match split_on sep s' with
           | [] => [String c EmptyString]
           | w :: ws => String c w :: ws
           end
  end.

(** [l[len(l) - 1]] on a list of strings ([IndexError] cannot happen on the
    result of [split]; the empty list is given the empty string). *)
Definition last_component (l : list string) : string := List.last l EmptyString.

(** [s.replace(pat, '')]: every occurrence of [pat], left to right, without
    overlap.  [skip] counts the characters of a match still to drop. *)
Fixpoint remove_all_from (pat : string) (skip : nat) (s : string) : string :=
  match s with
  | EmptyString => EmptyString
  | String c s' =>
      match skip with
      | S n => remove_all_from pat n s'
      | O =>
          if String.prefix pat s
          then remove_all_from pat (Nat.pred (String.length pat)) s'
          else String c (remove_all_from pat O s')
      end
  end.

Definition remove_all (pat s : string) : string :=
  match pat with
  | EmptyString => s
  | _ => remove_all_from pat O s
  end.

(** ** The host interface *)

(** One atom as [cmd.iterate] exposes it to the expression
    ['stored.r.append((model,resi,b))']: object name, residue identifier,
    b-factor column. *)
Definition record : Type := string * string * pyfloat.

(** The calls of the host API ([pymol.cmd]) that the script makes, with the
    arguments it passes. *)
Inductive hostcmd : Type :=
| CmdGet (name : string)
| CmdSet (name : string) (value : pyval) (selection : option string)
| CmdUnset (name : string)
| CmdCreate (name selection : string)
| CmdDisable (name : string)
| CmdEnable (name : string)
| CmdRemove (selection : string)
| CmdGetArea (selection : string) (load_b : Z)
| CmdAlter (selection expression : string)
| CmdExtract (name selection : string)
| CmdIterate (selection expression : string)
| CmdSelect (name selection : string)
| CmdDelete (name : string)
| CmdReinitialize
| CmdLoad (filename : string)
| CmdSetName (old_name new_name : string)
| CmdShow (representation : string)
| CmdSetView (view : list pyfloat)
| CmdRotate (axis : string) (angle : Z) (selection : string)
| CmdTranslate (vector : list Z) (selection : string)
| CmdCenter
| CmdMove (axis : string) (distance : Z)
| CmdBgColor (color : string)
| CmdSetColor (name : string) (rgb : list Z)
| CmdColor (color selection : string).

(** What the host does with a call: it returns a value, it fails, or (for
    [cmd.iterate]) it visits atoms and evaluates the expression on each. *)
Inductive reply : Type :=
| Value (v : pyval)
| Visited (atoms : list record)
| Fault (e : pyexn).

Inductive event : Type :=
| Ev (c : hostcmd) (r : reply)
| Out (text : string).

(** [pymol.stored] is a namespace shared by the host and the script; the
    script uses its attribute [r] only.  [None]: the attribute is not set. *)
Definition store : Type := option (list record).

(** The effect of ['stored.r.append((model,resi,b))'] evaluated on each
    visited atom. *)
Definition append_visited (st : store) (atoms : list record) : pyexn + store :=
  match atoms, st with
  | [], _ => inr st
  | _ :: _, Some r => inr (Some (r ++ atoms))
  | _ :: _, None => inl AttributeError
  end.

(** ** Scripts *)

Inductive script (R : Type) : Type :=
| Ret (r : R)
| Throw (e : pyexn)
| Call (c : hostcmd) (k : pyval → script R)
| IterateStored (selection expression : string) (k : script R)
| SetStored (l : list record) (k : script R)
| GetStored (k : list record → script R)
| PrintOut (text : string) (k : script R).

Arguments Ret {R} r.
Arguments Throw {R} e.
Arguments Call {R} c k.
Arguments IterateStored {R} selection expression k.
Arguments SetStored {R} l k.
Arguments GetStored {R} k.
Arguments PrintOut {R} text k.

Fixpoint bind {A B : Type} (m : script A) (f : A → script B) : script B :=
  match m with
  | Ret a => f a
  | Throw e => Throw e
  | Call c k => Call c (fun v => bind (k v) f)
  | IterateStored sel expr k => IterateStored sel expr (bind k f)
  | SetStored l k => SetStored l (bind k f)
  | GetStored k => GetStored (fun l => bind (k l) f)
  | PrintOut s k => PrintOut s (bind k f)
  end.

#[global] Instance script_ret : MRet script := @Ret.
#[global] Instance script_bind : MBind script := fun A B f m => bind m f.
#[global] Instance script_fmap : FMap script :=
  fun A B f m => bind m (fun a => Ret (f a)).

(** [cmd.f(...)] as a statement: the returned value is dropped. *)
Definition cmd (c : hostcmd) : script unit := Call c (fun _ => Ret tt).
(** [x = cmd.f(...)]. *)
Definition cmd_value (c : hostcmd) : script pyval := Call c Ret.
Definition iterate (selection expression : string) : script unit :=
  IterateStored selection expression (Ret tt).
Definition set_stored_r (l : list record) : script unit := SetStored l (Ret tt).
Definition get_stored_r : script (list record) := GetStored Ret.
Definition print (text : string) : script unit := PrintOut text (Ret tt).
(** An expression that may raise. *)
Definition lift {A : Type} (x : pyexn + A) : script A :=
  match x with
  | inl e => Throw e
  | inr a => Ret a
  end.

(** ** Runs *)

Inductive outcome (R : Type) : Type :=
| Returned (r : R)
| Raised (e : pyexn).

Arguments Returned {R} r.
Arguments Raised {R} e.

(** [exec p st tr o st']: started with [stored.r] as in [st], the script [p]
    issues the calls of [tr], receives the replies of [tr], ends with [o] and
    leaves [stored.r] as in [st'].  Nothing is assumed of the host. *)
Inductive exec {R : Type} : script R → store → list event → outcome R → store → Prop :=
| exec_ret r st :
    exec (Ret r) st [] (Returned r) st
| exec_throw e st :
    exec (Throw e) st [] (Raised e) st
| exec_call c k v st tr o st' :
    exec (k v) st tr o st' →
    exec (Call c k) st (Ev c (Value v) :: tr) o st'
| exec_call_fault c k e st :
    exec (Call c k) st [Ev c (Fault e)] (Raised e) st
| exec_iterate sel expr k atoms st st1 tr o st' :
    append_visited st atoms = inr st1 →
    exec k st1 tr o st' →
    exec (IterateStored sel expr k) st (Ev (CmdIterate sel expr) (Visited atoms) :: tr) o st'
| exec_iterate_raise sel expr k atoms st e :
    append_visited st atoms = inl e →
    exec (IterateStored sel expr k) st [Ev (CmdIterate sel expr) (Visited atoms)] (Raised e) st
| exec_iterate_fault sel expr k e st :
    exec (IterateStored sel expr k) st [Ev (CmdIterate sel expr) (Fault e)] (Raised e) st
| exec_set_stored l k st tr o st' :
    exec k (Some l) tr o st' →
    exec (SetStored l k) st tr o st'
| exec_get_stored k l tr o st' :
    exec (k l) (Some l) tr o st' →
    exec (GetStored k) (Some l) tr o st'
| exec_get_stored_unset k :
    exec (GetStored k) None [] (Raised AttributeError) None
| exec_print s k st tr o st' :
    exec k st tr o st' →
    exec (PrintOut s k) st (Out s :: tr) o st'.

(** The same runs, computed from the list of the host's replies.  [None]:
    the replies do not fit the calls (too few, too many, or of the wrong
    kind). *)
Fixpoint play {R : Type} (p : script R) (st : store) (rs : list reply)
  : option (list event * outcome R * store) :=
  match p with
  | Ret r => match rs with [] => Some ([], Returned r, st) | _ => None end
  | Throw e => match rs with [] => Some ([], Raised e, st) | _ => None end
  | Call c k =>
      match rs with
      | Value v :: rs' =>
          match play (k v) st rs' with
          | Some (tr, o, st') => Some (Ev c (Value v) :: tr, o, st')
          | None => None
          end
      | [Fault e] => Some ([Ev c (Fault e)], Raised e, st)
      | _ => None
      end
  | IterateStored sel expr k =>
      match rs with
      | Visited atoms :: rs' =>
          match append_visited st atoms with
          | inr st1 =>
              match play k st1 rs' with
              | Some (tr, o, st') => Some (Ev (CmdIterate sel expr) (Visited atoms) :: tr, o, st')
              | None => None
              end
          | inl e =>
              match rs' with
              | [] => Some ([Ev (CmdIterate sel expr) (Visited atoms)], Raised e, st)
              | _ => None
              end
          end
      | [Fault e] => Some ([Ev (CmdIterate sel expr) (Fault e)], Raised e, st)
      | _ => None
      end
  | SetStored l k => play k (Some l) rs
  | GetStored k =>
      match st with
      | Some l => play (k l) st rs
      | None => match rs with [] => Some ([], Raised AttributeError, None) | _ => None end
      end
  | PrintOut s k =>
      match play k st rs with
      | Some (tr, o, st') => Some (Out s :: tr, o, st')
      | None => None
      end
  end.

(** The calls of a trace, and the replies of a trace. *)
Definition issued (tr : list event) : list hostcmd :=
  omap (fun ev => match ev with Ev c _ => Some c | Out _ => None end) tr.

Definition replies (tr : list event) : list reply :=
  omap (fun ev => match ev with Ev _ r => Some r | Out _ => None end) tr.

Definition is_fault (r : reply) : bool :=
  match r with Fault _ => true | _ => false end.

(** ** The commands of the script *)

Definition float_neg (x : pyfloat) : pyfloat := SFopp x.

(** [key = resi+"-"+model] *)
Definition key_of (model resi : string) : string := resi +:+ "-" +:+ model.

Section Commands.
Context `{PyRuntime}.

(** The loop of [interfaceResidues] over [stored.r] (source lines 98-108);
    [seen] and [rVal] are the two lists the loop appends to. *)
Fixpoint select_pass (cutoff : pyval) (selName1 : string) (r : list record)
    (seen : list string) (rVal : list record) : script (list record) :=
  match r with
  | [] => Ret rVal
  | (model, resi, diff) :: r' =>
      let key := key_of model resi in
      threshold ← lift (float cutoff);
      if float_ge (float_abs diff) threshold then
        if bool_decide (key ∈ seen) then select_pass cutoff selName1 r' seen rVal
        else
          cmd (CmdSelect selName1
                 (selName1 +:+ " or (" +:+ model +:+ " and i. " +:+ resi +:+ ")"));;
          select_pass cutoff selName1 r' (seen ++ [key]) (rVal ++ [(model, resi, diff)])
      else select_pass cutoff selName1 r' seen rVal
  end.

Definition interfaceResidues (cmpx cA cB : string) (cutoff : pyval) (selName : string)
  : script (list record) :=
  oldDS ← cmd_value (CmdGet "dot_solvent");
  cmd (CmdSet "dot_solvent" (PyInt 1) None);;
  let tempC := "tempComplex" in
  let selName1 := selName +:+ "1" in
  let chA := "chA" in
  let chB := "chB" in
  cmd (CmdCreate tempC cmpx);;
  cmd (CmdDisable cmpx);;
  cmd (CmdRemove (tempC +:+ " and not (polymer and (" +:+ cA +:+ " or " +:+ cB +:+ "))"));;
  cmd (CmdGetArea tempC 1);;
  cmd (CmdAlter tempC "q=b");;
  cmd (CmdExtract chA (tempC +:+ " and (" +:+ cA +:+ ")"));;
  cmd (CmdExtract chB (tempC +:+ " and (" +:+ cB +:+ ")"));;
  cmd (CmdGetArea chA 1);;
  cmd (CmdGetArea chB 1);;
  cmd (CmdAlter (chA +:+ " or " +:+ chB) "b=b-q");;
  set_stored_r [];;
  iterate (chA +:+ " or " +:+ chB) "stored.r.append((model,resi,b))";;
  cmd (CmdEnable cmpx);;
  cmd (CmdSelect selName1 "none");;
  r ← get_stored_r;
  rVal ← select_pass cutoff selName1 r [] [];
  cmd (CmdSelect selName (cmpx +:+ " in " +:+ selName1));;
  cmd (CmdDelete selName1);;
  cmd (CmdDelete chA);;
  cmd (CmdDelete chB);;
  cmd (CmdDelete tempC);;
  cmd (CmdEnable selName);;
  cmd (CmdSet "dot_solvent" oldDS None);;
  mret rVal.

(** The defaults of the signature:
    [cA='c. A', cB='c. B', cutoff=1.0, selName="interface"]. *)
Definition interfaceResidues_defaults (cmpx : string) : script (list record) :=
  interfaceResidues cmpx "c. A" "c. B" (PyFloat (decimal 10 1)) "interface".
End Commands.

Definition initial_orientation (path : string) (config : pyval) : script unit :=
  cmd CmdReinitialize;;
  cmd (CmdLoad path);;
  let pathMtrx := split_on "/" path in
  let filename := last_component pathMtrx in
  let model := remove_all ".pdb" filename in
  cmd (CmdSetName model "OM");;
  cmd (CmdShow "surface");;
  cmd (CmdSet "surface_color" (PyStr "skyblue") (Some "chain A"));;
  cmd (CmdSet "surface_color" (PyStr "orange") (Some "chain B"));;
  if py_eq_str config "1" then
    cmd (CmdSetView
      [ decimal 547810793 9; decimal 809414983 9; decimal 211547419 9;
        float_neg (decimal 178774685 9); decimal 360282600 9; float_neg (decimal 915552616 9);
        float_neg (decimal 817279518 9); decimal 463730723 9; decimal 342069268 9;
        decimal 0 9; decimal 0 9; float_neg (decimal 257350799561 9);
        decimal 28792110443 9; decimal 50535285950 9; decimal 52779388428 9;
        decimal 202897338867 9; decimal 311804260254 9; float_neg (decimal 20000000000 9) ])
  else if py_eq_str config "2" then
    cmd (CmdSetView
      [ float_neg (decimal 739635348 9); float_neg (decimal 367862731 9); float_neg (decimal 563574135 9);
        decimal 143549025 9; float_neg (decimal 904357791 9); decimal 401908547 9;
        float_neg (decimal 657520115 9); decimal 216365919 9; decimal 721703112 9;
        decimal 0 9; decimal 0 9; float_neg (decimal 299573425293 9);
        decimal 67182876587 9; decimal 45570850372 9; decimal 51338077545 9;
        float_neg (decimal 32216630859375 9); decimal 32815777343750 9; float_neg (decimal 20000000000 9) ])
  else mret tt.

Definition reset_view (config : pyval) : script unit :=
  if py_eq_str config "1" then
    cmd (CmdSetView
      [ decimal 547810793 9; decimal 809414983 9; decimal 211547419 9;
        float_neg (decimal 178774685 9); decimal 360282600 9; float_neg (decimal 915552616 9);
        float_neg (decimal 817279518 9); decimal 463730723 9; decimal 342069268 9;
        decimal 0 9; decimal 0 9; float_neg (decimal 257350799561 9);
        decimal 28792110443 9; decimal 50535285950 9; decimal 52779388428 9;
        decimal 202897338867 9; decimal 311804260254 9; float_neg (decimal 20000000000 9) ])
  else if py_eq_str config "2" then
    cmd (CmdSetView
      [ float_neg (decimal 739635348 9); float_neg (decimal 367862731 9); float_neg (decimal 563574135 9);
        decimal 143549025 9; float_neg (decimal 904357791 9); decimal 401908547 9;
        float_neg (decimal 657520115 9); decimal 216365919 9; decimal 721703112 9;
        decimal 0 9; decimal 0 9; float_neg (decimal 299573425293 9);
        decimal 67182876587 9; decimal 45570850372 9; decimal 51338077545 9;
        float_neg (decimal 32216630859375 9); decimal 32815777343750 9; float_neg (decimal 20000000000 9) ])
  else mret tt.

Definition split_chains : script unit :=
  cmd (CmdSelect "MBP" "chain B");;
  cmd (CmdRotate "y" (-90) "(MBP)");;
  cmd (CmdTranslate [-90; 0; 20] "(MBP)");;
  cmd (CmdSelect "OSM" "chain A");;
  cmd (CmdRotate "y" 90 "(OSM)");;
  cmd (CmdTranslate [0; 0; 20] "(OSM)");;
  cmd CmdCenter;;
  cmd (CmdMove "x" (-10)).

Definition ray_settings : script unit :=
  cmd (CmdSet "ray_trace_fog" (PyInt 0) None);;
  cmd (CmdSet "ray_shadows" (PyInt 0) None);;
  cmd (CmdUnset "depth_cue");;
  cmd (CmdBgColor "white");;
  cmd (CmdSet "antialias" (PyInt 2) None);;
  cmd (CmdSet "hash_max" (PyInt 300) None);;
  cmd (CmdSet "ambient" (PyFloat (decimal 4 1)) None).

(** [str(selection)] on a selection given as text. *)
Definition str (selection : string) : string := selection.

Definition hydrophobicity (selection : string) : script unit :=
  let s := str selection in
  print s;;
  cmd (CmdSetColor "color_ile3" [71; 67; 243]);;
  cmd (CmdSetColor "color_phe3" [88; 76; 244]);;
  cmd (CmdSetColor "color_val3" [103; 86; 245]);;
  cmd (CmdSetColor "color_leu3" [116; 95; 246]);;
  cmd (CmdSetColor "color_trp3" [128; 105; 247]);;
  cmd (CmdSetColor "color_met3" [139; 115; 248]);;
  cmd (CmdSetColor "color_ala3" [149; 124; 249]);;
  cmd (CmdSetColor "color_gly3" [159; 134; 250]);;
  cmd (CmdSetColor "color_cys3" [168; 144; 250]);;
  cmd (CmdSetColor "color_tyr3" [177; 153; 251]);;
  cmd (CmdSetColor "color_pro3" [186; 163; 252]);;
  cmd (CmdSetColor "color_thr3" [194; 173; 252]);;
  cmd (CmdSetColor "color_ser3" [202; 183; 253]);;
  cmd (CmdSetColor "color_his3" [210; 193; 253]);;
  cmd (CmdSetColor "color_glu3" [218; 203; 254]);;
  cmd (CmdSetColor "color_asn3" [226; 214; 254]);;
  cmd (CmdSetColor "color_gln3" [233; 224; 254]);;
  cmd (CmdSetColor "color_asp3" [241; 234; 255]);;
  cmd (CmdSetColor "color_lys3" [248; 245; 255]);;
  cmd (CmdSetColor "color_arg3" [255; 255; 255]);;
  cmd (CmdColor "color_ile3" ("(" +:+ s +:+ " and resn ile)"));;
  cmd (CmdColor "color_phe3" ("(" +:+ s +:+ " and resn phe)"));;
  cmd (CmdColor "color_val3" ("(" +:+ s +:+ " and resn val)"));;
  cmd (CmdColor "color_leu3" ("(" +:+ s +:+ " and resn leu)"));;
  cmd (CmdColor "color_trp3" ("(" +:+ s +:+ " and resn trp)"));;
  cmd (CmdColor "color_met3" ("(" +:+ s +:+ " and resn met)"));;
  cmd (CmdColor "color_ala3" ("(" +:+ s +:+ " and resn ala)"));;
  cmd (CmdColor "color_gly3" ("(" +:+ s +:+ " and resn gly)"));;
  cmd (CmdColor "color_cys3" ("(" +:+ s +:+ " and resn cys)"));;
  cmd (CmdColor "color_tyr3" ("(" +:+ s +:+ " and resn tyr)"));;
  cmd (CmdColor "color_pro3" ("(" +:+ s +:+ " and resn pro)"));;
  cmd (CmdColor "color_thr3" ("(" +:+ s +:+ " and resn thr)"));;
  cmd (CmdColor "color_ser3" ("(" +:+ s +:+ " and resn ser)"));;
  cmd (CmdColor "color_his3" ("(" +:+ s +:+ " and resn his)"));;
  cmd (CmdColor "color_glu3" ("(" +:+ s +:+ " and resn glu)"));;
  cmd (CmdColor "color_asn3" ("(" +:+ s +:+ " and resn asn)"));;
  cmd (CmdColor "color_gln3" ("(" +:+ s +:+ " and resn gln)"));;
  cmd (CmdColor "color_asp3" ("(" +:+ s +:+ " and resn asp)"));;
  cmd (CmdColor "color_lys3" ("(" +:+ s +:+ " and resn lys)"));;
  cmd (CmdColor "color_arg3" ("(" +:+ s +:+ " and resn arg)")).

Definition hydrophobicity_default : script unit := hydrophobicity "all".

(** ** The command table ([cmd.extend]) *)

(** A call of one of the six registered commands with its arguments. *)
Inductive invocation : Type :=
| InterfaceResidues (cmpx cA cB : string) (cutoff : pyval) (selName : string)
| InitialOrientation (path : string) (config : pyval)
| ResetView (config : pyval)
| SplitChains
| RaySettings
| Hydrophobicity (selection : string).

(** The Python value of a returned list of [(model, resi, diff)] tuples, and
    of a function that ends without [return]. *)
Definition py_of_record (x : record) : pyval :=
  let '(model, resi, diff) := x in PyTuple [PyStr model; PyStr resi; PyFloat diff].
Definition py_of_records (l : list record) : pyval := PyList (map py_of_record l).
Definition py_of_unit (_ : unit) : pyval := PyNone.

Definition run_command `{PyRuntime} (i : invocation) : script pyval :=
  match i with
  | InterfaceResidues cmpx cA cB cutoff selName =>
      py_of_records <$> interfaceResidues cmpx cA cB cutoff selName
  | InitialOrientation path config => py_of_unit <$> initial_orientation path config
  | ResetView config => py_of_unit <$> reset_view config
  | SplitChains => py_of_unit <$> split_chains
  | RaySettings => py_of_unit <$> ray_settings
  | Hydrophobicity selection => py_of_unit <$> hydrophobicity selection
  end.

(** A value that is one text or one number. *)
Definition simple_value (v : pyval) : bool :=
  match v with
  | PyStr _ | PyInt _ | PyFloat _ | PyBool _ => true
  | PyNone | PyTuple _ | PyList _ => false
  end.

(** [answered cmds tr]: the trace [tr] is the calls [cmds], in this order,
    each answered with a value. *)
Definition answered (cmds : list hostcmd) (tr : list event) : Prop :=
  Forall2 (fun c ev => ∃ v, ev = Ev c (Value v)) cmds tr.

(** ** The filter of [interfaceResidues] *)

Definition model_of (x : record) : string := x.1.1.
Definition resi_of (x : record) : string := x.1.2.
Definition diff_of (x : record) : pyfloat := x.2.

(** [abs(diff) >= threshold] *)
Definition crosses (threshold : pyfloat) (x : record) : bool :=
  float_ge (float_abs (diff_of x)) threshold.

Definition record_key (x : record) : string := key_of (model_of x) (resi_of x).

(** What the loop of the source appends to [rVal], as a function of the
    records still to visit and of [seen]. *)
Fixpoint kept (threshold : pyfloat) (r : list record) (seen : list string) : list record :=
  match r with
  | [] => []
  | x :: r' =>
      if crosses threshold x then
        if bool_decide (record_key x ∈ seen) then kept threshold r' seen
        else x :: kept threshold r' (seen ++ [record_key x])
      else kept threshold r' seen
  end.

(** The filter as the specification words it: of a list, keep the first
    record of every key ... *)
Fixpoint first_per_key (l : list record) : list record :=
  match l with
  | [] => []
  | x :: l' => x :: filter (fun y => record_key y ≠ record_key x) (first_per_key l')
  end.

(** ... among the records whose area difference crosses the threshold, in
    iteration order. *)
Definition threshold_filter (threshold : pyfloat) (l : list record) : list record :=
  first_per_key (filter (fun x => crosses threshold x = true) l).

(** The two objects [cmd.iterate] ranges over. *)
Definition chain_objects : list string := ["chA"; "chB"].

Definition select_cmd (selName1 : string) (x : record) : hostcmd :=
  CmdSelect selName1
    (selName1 +:+ " or (" +:+ model_of x +:+ " and i. " +:+ resi_of x +:+ ")").

Section Kept.
Context `{PyRuntime}.

(** What a returning run of the loop has appended to [rVal]. *)
Definition kept_for (cutoff : pyval) (r : list record) (seen : list string) : list record :=
  match float cutoff with
  | inr threshold => kept threshold r seen
  | inl _ => []
  end.
End Kept.

(** ** The shape of a returning run of [interfaceResidues] *)

Definition dot_solvent : string := "dot_solvent".
Definition tempComplex : string := "tempComplex".
Definition iterate_expr : string := "stored.r.append((model,resi,b))".

(** The calls between the first [cmd.get] and [cmd.iterate]. *)
Definition prepare_cmds (cmpx cA cB : string) : list hostcmd :=
  [ CmdSet dot_solvent (PyInt 1) None;
    CmdCreate tempComplex cmpx;
    CmdDisable cmpx;
    CmdRemove (tempComplex +:+ " and not (polymer and (" +:+ cA +:+ " or " +:+ cB +:+ "))");
    CmdGetArea tempComplex 1;
    CmdAlter tempComplex "q=b";
    CmdExtract "chA" (tempComplex +:+ " and (" +:+ cA +:+ ")");
    CmdExtract "chB" (tempComplex +:+ " and (" +:+ cB +:+ ")");
    CmdGetArea "chA" 1;
    CmdGetArea "chB" 1;
    CmdAlter "chA or chB" "b=b-q" ].

(** The calls after [cmd.iterate], up to the end of the loop. *)
Definition collect_cmds (cmpx selName : string) (rVal : list record) : list hostcmd :=
  [ CmdEnable cmpx; CmdSelect (selName +:+ "1") "none" ]
  ++ map (select_cmd (selName +:+ "1")) rVal.

(** The calls after the loop. *)
Definition cleanup_cmds (cmpx selName : string) (oldDS : pyval) : list hostcmd :=
  [ CmdSelect selName (cmpx +:+ " in " +:+ (selName +:+ "1"));
    CmdDelete (selName +:+ "1");
    CmdDelete "chA";
    CmdDelete "chB";
    CmdDelete tempComplex;
    CmdEnable selName;
    CmdSet dot_solvent oldDS None ].

(** [shape cmpx cA cB selName oldDS atoms rVal tr]: the trace of a complete
    run in which the host answered [oldDS] to the first call, visited
    [atoms] in [cmd.iterate], and the loop kept [rVal]. *)
Definition shape (cmpx cA cB selName : string) (oldDS : pyval)
    (atoms rVal : list record) (tr : list event) : Prop :=
  ∃ tr1 tr2 tr3,
    tr = Ev (CmdGet dot_solvent) (Value oldDS) :: tr1
         ++ Ev (CmdIterate "chA or chB" iterate_expr) (Visited atoms) :: tr2 ++ tr3 ∧
    answered (prepare_cmds cmpx cA cB) tr1 ∧
    answered (collect_cmds cmpx selName rVal) tr2 ∧
    answered (cleanup_cmds cmpx selName oldDS) tr3.


(** ** Sample runs *)

(** A runtime whose [float] reads the one string ["2.0"]. *)
Definition sample_runtime : PyRuntime :=
  {| float_of_str := fun s => if String.eqb s "2.0" then Some (decimal 20 1) else None |}.

(** Two atoms of residue 1 of chain A, one of residue 7 and one of residue 8
    of chain B, with area differences 1.5, 3.0, -3.0 and 0.5. *)
Definition sample_atoms : list record :=
  [ ("chA", "1", decimal 15 1); ("chA", "1", decimal 30 1);
    ("chB", "7", float_neg (decimal 30 1)); ("chB", "8", decimal 5 1) ].

(** The host answers ["off"] to [cmd.get], visits [atoms], and answers
    [None] to every other call; [n] selections are made in the loop. *)
Definition sample_replies (atoms : list record) (n : nat) : list reply :=
  Value (PyStr "off") :: repeat (Value PyNone) 11
  ++ Visited atoms :: repeat (Value PyNone) (2 + n + 7).

Definition sample_run (cutoff : pyval) (n : nat)
  : option (list event * outcome (list record) * store) :=
  play (@interfaceResidues sample_runtime "cx" "c. A" "c. B" cutoff "interface")
    None (sample_replies sample_atoms n).

Definition trace_of {R : Type} (x : option (list event * outcome R * store)) : list event :=
  match x with Some (tr, _, _) => tr | None => [] end.

Definition sample_trace_1 : list event :=
  Eval vm_compute in trace_of (sample_run (PyFloat (decimal 10 1)) 2).
Definition sample_trace_2 : list event :=
  Eval vm_compute in trace_of (sample_run (PyFloat (decimal 20 1)) 2).
Definition sample_trace_0 : list event :=
  Eval vm_compute in trace_of (sample_run (PyInt 0) 3).

Definition sample_rVal_1 : list record :=
  [ ("chA", "1", decimal 15 1); ("chB", "7", float_neg (decimal 30 1)) ].
Definition sample_rVal_2 : list record :=
  [ ("chA", "1", decimal 30 1); ("chB", "7", float_neg (decimal 30 1)) ].
Definition sample_rVal_0 : list record :=
  [ ("chA", "1", decimal 15 1); ("chB", "7", float_neg (decimal 30 1));
    ("chB", "8", decimal 5 1) ].

Definition outcome_of {R : Type} (x : option (list event * outcome R * store))
  : option (outcome R) :=
  match x with Some (_, o, _) => Some o | None => None end.

Definition store_of {R : Type} (x : option (list event * outcome R * store))
  : option store :=
  match x with Some (_, _, st) => Some st | None => None end.

(** ** Scripts that do not depend on what [stored.r] held before *)

(** [writes_first p]: on every path, [p] assigns [stored.r] before the host
    or the script reads it. *)
Inductive writes_first {R : Type} : script R → Prop :=
| wf_ret r : writes_first (Ret r)
| wf_throw e : writes_first (Throw e)
| wf_call c k : (∀ v, writes_first (k v)) → writes_first (Call c k)
| wf_set l k : writes_first (SetStored l k)
| wf_print s k : writes_first k → writes_first (PrintOut s k).

(** The view matrices passed to [cmd.set_view] in a trace. *)
Definition views (tr : list event) : list (list pyfloat) :=
  omap (fun c => match c with CmdSetView m => Some m | _ => None end) (issued tr).

(** The calls [initial_orientation] makes before it looks at [config]. *)
Definition load_cmds (path : string) : list hostcmd :=
  [ CmdReinitialize;
    CmdLoad path;
    CmdSetName (remove_all ".pdb" (last_component (split_on "/" path))) "OM";
    CmdShow "surface";
    CmdSet "surface_color" (PyStr "skyblue") (Some "chain A");
    CmdSet "surface_color" (PyStr "orange") (Some "chain B") ].

(** An event that does not set [dot_solvent] to anything but 1 (the value
    the script itself sets on entry). *)
Definition no_restore (ev : event) : Prop :=
  ∀ v r, ev = Ev (CmdSet dot_solvent v None) (Value r) → v = PyInt 1.

Definition is_select (ev : event) : Prop :=
  ∃ name selection r, ev = Ev (CmdSelect name selection) r.

(** ** Colouring by residue name *)

(** The twenty standard amino acids, in the order of the docstring. *)
Definition standard_residues : list string :=
  [ "ala"; "arg"; "asn"; "asp"; "cys"; "gln"; "glu"; "gly"; "his"; "ile";
    "leu"; "lys"; "met"; "phe"; "pro"; "ser"; "thr"; "trp"; "tyr"; "val" ].

(** The order in which [hydrophobicity] defines and applies its colours. *)
Definition colouring_order : list string :=
  [ "ile"; "phe"; "val"; "leu"; "trp"; "met"; "ala"; "gly"; "cys"; "tyr";
    "pro"; "thr"; "ser"; "his"; "glu"; "asn"; "gln"; "asp"; "lys"; "arg" ].

Definition color_name (resn : string) : string := "color_" +:+ resn +:+ "3".

(** ["("+s+" and resn X)"] *)
Definition resn_selection (s resn : string) : string :=
  "(" +:+ s +:+ " and resn " +:+ resn +:+ ")".

Definition color_cmd (s resn : string) : hostcmd :=
  CmdColor (color_name resn) (resn_selection s resn).

(** [defines resn ev]: the event is a successful [cmd.set_color] of the
    colour named after [resn]. *)
Definition defines (resn : string) (ev : event) : Prop :=
  ∃ rgb v, ev = Ev (CmdSetColor (color_name resn) rgb) (Value v).

(** The host's side of colouring.  Atoms, and which atoms a selection
    expression selects, are the host's; an atom's colour is the name of the
    colour last applied to it.  A successful [cmd.color(name, selection)]
    recolours the atoms the host selects for [selection] and no other; no
    other call of the script changes which colour an atom has. *)
Section Colouring.
Context {atom : Type}.
Variable selects : string → atom → bool.

Definition paint_event (ev : event) (col : atom → string) : atom → string :=
  match ev with
  | Ev (CmdColor name selection) (Value _) =>
      fun a => if selects selection a then name else col a
  | _ => col
  end.

Definition paint (tr : list event) (col : atom → string) : atom → string :=
  foldl (fun c ev => paint_event ev c) col tr.
End Colouring.

(** A sample host for colouring: an atom is a flag (is it in the selection
    ["all"]?) and a residue name; the host reads ["all"] and
    ["(all and resn X)"]. *)
Definition sample_atom : Type := bool * string.

Definition sample_selects (selection : string) (a : sample_atom) : bool :=
  if String.eqb selection "all" then a.1
  else a.1 && String.eqb selection (resn_selection "all" a.2).

Definition sample_resn_is (resn : string) (a : sample_atom) : bool :=
  String.eqb resn a.2.

(** ** The host session: names, settings, enabled flags *)

(** What the host keeps between calls, as far as [interfaceResidues] touches
    it: the global settings, the names of objects and selections, and which
    of them are enabled. *)
Record session : Type := Session {
  settings : gmap string pyval;
  names : gset string;
  enabled : gset string
}.

(** The effect of a successful call on the session, for the calls that
    [interfaceResidues] makes (names are taken literally, without
    wildcards).  [cmd.create] and [cmd.extract] make an enabled object;
    [cmd.select] makes a selection; [cmd.delete] removes a name;
    [cmd.remove], [cmd.get_area], [cmd.alter] and [cmd.iterate] work on
    atoms and leave the three tables alone.  The calls of the other
    commands are not tracked ([None]). *)
Definition track (c : hostcmd) (s : session) : option session :=
  match c with
  | CmdGet _ => Some s
  | CmdSet k v None => Some (Session (<[k := v]> (settings s)) (names s) (enabled s))
  | CmdSet _ _ (Some _) => Some s
  | CmdCreate n _ | CmdExtract n _ =>
      Some (Session (settings s) (names s ∪ {[n]}) (enabled s ∪ {[n]}))
  | CmdSelect n _ => Some (Session (settings s) (names s ∪ {[n]}) (enabled s))
  | CmdDelete n => Some (Session (settings s) (names s ∖ {[n]}) (enabled s ∖ {[n]}))
  | CmdEnable n => Some (Session (settings s) (names s) (enabled s ∪ {[n]}))
  | CmdDisable n => Some (Session (settings s) (names s) (enabled s ∖ {[n]}))
  | CmdRemove _ | CmdGetArea _ _ | CmdAlter _ _ | CmdIterate _ _ => Some s
  | _ => None
  end.

Fixpoint track_all (cmds : list hostcmd) (s : session) : option session :=
  match cmds with
  | [] => Some s
  | c :: cmds' =>
      match track c s with
      | Some s1 => track_all cmds' s1
      | None => None
      end
  end.

(** One event seen from the session: [cmd.get] answers what the settings
    hold; another successful call has its tracked effect.  Failed calls are
    not followed. *)
Definition observe (ev : event) (s s1 : session) : Prop :=
  match ev with
  | Out _ => s1 = s
  | Ev _ (Fault _) => False
  | Ev (CmdGet k) (Value v) => settings s !! k = Some v ∧ s1 = s
  | Ev c _ => track c s = Some s1
  end.

(** [follows tr s s']: the trace [tr] takes the session from [s] to [s']. *)
Fixpoint follows (tr : list event) (s s' : session) : Prop :=
  match tr with
  | [] => s' = s
  | ev :: tr' => ∃ s1, observe ev s s1 ∧ follows tr' s1 s'
  end.

Definition is_get (c : hostcmd) : bool :=
  match c with CmdGet _ => true | _ => false end.

(** The names [interfaceResidues] uses for its temporaries. *)
Definition temporaries (selName : string) : list string :=
  [ tempComplex; "chA"; "chB"; selName +:+ "1" ].

(** A session with the complex ["cx"] loaded and [dot_solvent] off, and the
    same session with the selection ["interface"] made and enabled. *)
Definition sample_session : session :=
  Session {[ "dot_solvent" := PyStr "off" ]} {[ "cx" ]} {[ "cx" ]}.

(** The events the session can follow without looking at the settings. *)
Definition tracked (ev : event) : Prop :=
  match ev with
  | Ev c (Value _ | Visited _) => is_get c = false
  | Ev _ (Fault _) => False
  | Out _ => True
  end.

Definition sample_session_after : session :=
  Eval cbv [default from_option track_all track issued omap list_omap sample_trace_2
            sample_session mbind option_bind settings names enabled id] in
  default sample_session (track_all (issued sample_trace_2) sample_session).


(** ** Paths and model names *)

(** [c in s] for a character. *)
Fixpoint contains_char (c : ascii) (s : string) : bool :=
  match s with
  | EmptyString => false
  | String a s' => Ascii.eqb a c || contains_char c s'
  end.

(** [pat in s] for a text. *)
Fixpoint has_substring (pat s : string) : bool :=
  match s with
  | EmptyString => String.prefix pat EmptyString
  | String _ s' => String.prefix pat s || has_substring pat s'
  end.

(** The object name [initial_orientation] derives from [path]. *)
Definition model_name (path : string) : string :=
  remove_all ".pdb" (last_component (split_on "/" path)).

(** The sample run on a complex that is itself called ["chA"], in a
    session that holds that complex. *)
Definition sample_trace_chA : list event :=
  Eval vm_compute in
  trace_of (play (@interfaceResidues sample_runtime "chA" "c. A" "c. B"
                    (PyFloat (decimal 20 1)) "interface")
              None (sample_replies sample_atoms 2)).

Definition sample_session_chA : session :=
  Session {[ "dot_solvent" := PyStr "off" ]} {[ "chA" ]} {[ "chA" ]}.

Definition sample_session_chA_after : session :=
  Eval cbv [default from_option track_all track issued omap list_omap sample_trace_chA
            sample_session_chA mbind option_bind settings names enabled id] in
  default sample_session_chA (track_all (issued sample_trace_chA) sample_session_chA).

(** A host that reads the selection texts of [hydrophobicity] on
    ["chain A or chain B"] as the host's selection algebra does, [and]
    binding tighter than [or]: ["(chain A or chain B and resn X)"] is the
    atoms of chain A together with the atoms of chain B whose residue name
    is [X].  An atom is a chain and a residue name. *)
Definition chain_atom : Type := string * string.

Definition algebra_selects (selection : string) (a : chain_atom) : bool :=
  if String.eqb selection "chain A or chain B"
  then String.eqb a.1 "A" || String.eqb a.1 "B"
  else existsb
         (fun x => String.eqb selection (resn_selection "chain A or chain B" x)
                   && (String.eqb a.1 "A" || (String.eqb a.1 "B" && String.eqb a.2 x)))
         standard_residues.
(** ** General facts about runs *)

Section Runs.
Context {R : Type}.
Implicit Types (p : script R) (st : store) (tr : list event) (o : outcome R).

Lemma play_exec p : ∀ st rs tr o st',
  play p st rs = Some (tr, o, st') → exec p st tr o st'.
Proof.
  induction p as [r|e|c k IH|sel expr k IH|l k IH|k IH|s k IH]; intros st rs tr o st' Hp; simpl in Hp.
  - destruct rs; [|discriminate]. injection Hp as <- <- <-. constructor.
  - destruct rs; [|discriminate]. injection Hp as <- <- <-. constructor.
  - destruct rs as [|[v|atoms|e] rs]; try discriminate.
    + destruct (play (k v) st rs) as [[[tr0 o0] st0]|] eqn:E; [|discriminate].
      injection Hp as <- <- <-. constructor. eapply IH, E.
    + destruct rs; [|discriminate]. injection Hp as <- <- <-. constructor.
  - destruct rs as [|[v|atoms|e] rs]; try discriminate.
    + destruct (append_visited st atoms) as [e|st1] eqn:Ea.
      * destruct rs; [|discriminate]. injection Hp as <- <- <-.
        by apply exec_iterate_raise.
      * destruct (play k st1 rs) as [[[tr0 o0] st0]|] eqn:E; [|discriminate].
        injection Hp as <- <- <-. eapply exec_iterate; [done|]. eapply IH, E.
    + destruct rs; [|discriminate]. injection Hp as <- <- <-. constructor.
  - constructor. eapply IH, Hp.
  - destruct st as [l|].
    + constructor. eapply IH, Hp.
    + destruct rs; [|discriminate]. injection Hp as <- <- <-. constructor.
  - destruct (play k st rs) as [[[tr0 o0] st0]|] eqn:E; [|discriminate].
    injection Hp as <- <- <-. constructor. eapply IH, E.
Qed.

(** Every run is the play of its own replies. *)
Lemma exec_play p st tr o st' :
  exec p st tr o st' → play p st (replies tr) = Some (tr, o, st').
Proof.
  induction 1 as [| | ? ? ? ? ? ? ? _ IH | | ? ? ? ? ? ? ? ? ? Ha _ IH | ? ? ? ? ? ? Ha | | | |
                 | ? ? ? ? ? ? _ IH];
    simpl; try fold (replies tr); try done.
  - by rewrite IH.
  - by rewrite Ha, IH.
  - by rewrite Ha.
  - by rewrite IH.
Qed.

(** Two runs of one script that receive the same replies are the same
    run. *)
Lemma exec_deterministic p st tr1 o1 st1 tr2 o2 st2 :
  exec p st tr1 o1 st1 → exec p st tr2 o2 st2 →
  replies tr1 = replies tr2 →
  tr1 = tr2 ∧ o1 = o2 ∧ st1 = st2.
Proof.
  intros H1 H2 Hr. apply exec_play in H1, H2. rewrite Hr in H1.
  rewrite H1 in H2. by injection H2 as -> -> ->.
Qed.

(** A failing call ends the run at once, with the host's exception. *)
Lemma exec_fault_last p st tr o st' :
  exec p st tr o st' →
  ∀ c e, Ev c (Fault e) ∈ tr →
  o = Raised e ∧ ∃ tr0, tr = tr0 ++ [Ev c (Fault e)].
Proof.
  induction 1 as [| | c k v st tr o st' _ IH | |sel expr k atoms st st1 tr o st' Ha _ IH
                 |sel expr k atoms st e Ha| |l k st tr o st' _ IH|k l tr o st' _ IH|
                 |s k st tr o st' _ IH]; intros c0 e0 Hin.
  - by apply elem_of_nil in Hin.
  - by apply elem_of_nil in Hin.
  - apply elem_of_cons in Hin as [Heq|Hin]; [discriminate|].
    destruct (IH _ _ Hin) as [-> [tr0 ->]]. split; [done|]. by exists (Ev c (Value v) :: tr0).
  - apply list_elem_of_singleton in Hin. injection Hin as <- <-.
    split; [done|]. by exists [].
  - apply elem_of_cons in Hin as [Heq|Hin]; [discriminate|].
    destruct (IH _ _ Hin) as [-> [tr0 ->]]. split; [done|].
    by exists (Ev (CmdIterate sel expr) (Visited atoms) :: tr0).
  - apply list_elem_of_singleton in Hin. discriminate.
  - apply list_elem_of_singleton in Hin. injection Hin as <- <-.
    split; [done|]. by exists [].
  - eauto.
  - eauto.
  - by apply elem_of_nil in Hin.
  - apply elem_of_cons in Hin as [Heq|Hin]; [discriminate|].
    destruct (IH _ _ Hin) as [-> [tr0 ->]]. split; [done|]. by exists (Out s :: tr0).
Qed.

(** A run that returns has met no failing call. *)
Lemma exec_returned_no_fault p st tr r st' :
  exec p st tr (Returned r) st' → ∀ c e, Ev c (Fault e) ∉ tr.
Proof.
  intros Hx c e Hin. by destruct (exec_fault_last _ _ _ _ _ Hx _ _ Hin) as [? _].
Qed.
End Runs.

(** Runs of a sequence [x ← m; f x]. *)
Lemma exec_bind {A B : Type} (m : script A) (f : A → script B) st tr1 a st1 tr2 o st' :
  exec m st tr1 (Returned a) st1 → exec (f a) st1 tr2 o st' →
  exec (bind m f) st (tr1 ++ tr2) o st'.
Proof.
  intros H1. revert tr2 o st'.
  remember (Returned a) as oa eqn:Ho.
  induction H1; intros tr2 o2 st2 H2; simpl; try discriminate;
    try (econstructor; eauto; fail).
  by injection Ho as ->.
Qed.

Lemma exec_bind_raise {A B : Type} (m : script A) (f : A → script B) st tr e st' :
  exec m st tr (Raised e) st' → exec (bind m f) st tr (Raised e) st'.
Proof.
  remember (Raised e) as oe eqn:Ho.
  induction 1; simpl; try discriminate; try (econstructor; eauto; fail).
  all: injection Ho as <-; by econstructor.
Qed.

Lemma exec_bind_inv {A B : Type} (m : script A) (f : A → script B) st tr o st' :
  exec (bind m f) st tr o st' →
  (∃ e, o = Raised e ∧ exec m st tr (Raised e) st') ∨
  (∃ a tr1 st1 tr2, tr = tr1 ++ tr2 ∧
     exec m st tr1 (Returned a) st1 ∧ exec (f a) st1 tr2 o st').
Proof.
  revert st tr o st'.
  induction m as [r|e|c k IH|sel expr k IH|l k IH|k IH|s k IH]; intros st tr o st' Hx; simpl in Hx.
  - right. exists r, [], st, tr. split_and!; [done|constructor|done].
  - inversion Hx; subst. left. exists e. split; [done|constructor].
  - inversion Hx; subst.
    + match goal with Hk : exec (bind (k ?v) f) _ _ _ _ |- _ =>
        destruct (IH _ _ _ _ _ Hk) as [(e & -> & He)|(a & tr1 & st1 & tr2 & -> & H1 & H2)] end.
      * left. exists e. split; [done|]. by constructor.
      * right. exists a, (Ev c (Value v) :: tr1), st1, tr2. split_and!; [done| |done].
        by constructor.
    + left. eexists. split; [done|]. constructor.
  - inversion Hx; subst.
    + match goal with Hk : exec (bind k f) _ _ _ _ |- _ =>
        destruct (IH _ _ _ _ Hk) as [(e & -> & He)|(a & tr1 & st2 & tr2 & -> & H1 & H2)] end.
      * left. exists e. split; [done|]. by eapply exec_iterate.
      * right. exists a, (Ev (CmdIterate sel expr) (Visited atoms) :: tr1), st2, tr2.
        split_and!; [done| |done]. by eapply exec_iterate.
    + left. eexists. split; [done|]. by apply exec_iterate_raise.
    + left. eexists. split; [done|]. constructor.
  - inversion Hx; subst.
    match goal with Hk : exec (bind k f) _ _ _ _ |- _ =>
      destruct (IH _ _ _ _ Hk) as [(e & -> & He)|(a & tr1 & st2 & tr2 & -> & H1 & H2)] end.
    + left. exists e. split; [done|]. by constructor.
    + right. exists a, tr1, st2, tr2. split_and!; [done| |done]. by constructor.
  - inversion Hx; subst.
    + match goal with Hk : exec (bind (k ?l) f) _ _ _ _ |- _ =>
        destruct (IH _ _ _ _ _ Hk) as [(e & -> & He)|(a & tr1 & st2 & tr2 & -> & H1 & H2)] end.
      * left. exists e. split; [done|]. by constructor.
      * right. exists a, tr1, st2, tr2. split_and!; [done| |done]. by constructor.
    + left. eexists. split; [done|]. constructor.
  - inversion Hx; subst.
    match goal with Hk : exec (bind k f) _ _ _ _ |- _ =>
      destruct (IH _ _ _ _ Hk) as [(e & -> & He)|(a & tr1 & st2 & tr2 & -> & H1 & H2)] end.
    + left. exists e. split; [done|]. by constructor.
    + right. exists a, (Out s :: tr1), st2, tr2. split_and!; [done| |done]. by constructor.
Qed.

(** Inversion of the runs of one call. *)
Lemma exec_call_inv {R : Type} c (k : pyval → script R) st tr o st' :
  exec (Call c k) st tr o st' →
  (∃ e, tr = [Ev c (Fault e)] ∧ o = Raised e ∧ st' = st) ∨
  (∃ v tr', tr = Ev c (Value v) :: tr' ∧ exec (k v) st tr' o st').
Proof. inversion 1; subst; [right|left]; eauto. Qed.

Lemma exec_call_returned {R : Type} c (k : pyval → script R) st tr r st' :
  exec (Call c k) st tr (Returned r) st' →
  ∃ v tr', tr = Ev c (Value v) :: tr' ∧ exec (k v) st tr' (Returned r) st'.
Proof. intros [(e & _ & [=] & _)|Hk]%exec_call_inv. done. Qed.

Lemma exec_ret_inv {R : Type} (r : R) st tr o st' :
  exec (Ret r) st tr o st' → tr = [] ∧ o = Returned r ∧ st' = st.
Proof. by inversion 1. Qed.

Lemma answered_cons c v cmds tr :
  answered cmds tr → answered (c :: cmds) (Ev c (Value v) :: tr).
Proof. intros. constructor; eauto. Qed.

Lemma answered_app cmds1 cmds2 tr1 tr2 :
  answered cmds1 tr1 → answered cmds2 tr2 → answered (cmds1 ++ cmds2) (tr1 ++ tr2).
Proof. apply Forall2_app. Qed.

Lemma answered_issued cmds tr : answered cmds tr → issued tr = cmds.
Proof.
  induction 1 as [|c ev cmds tr [v ->] _ IH]; [done|].
  change (issued (Ev c (Value v) :: tr)) with (c :: issued tr). by rewrite IH.
Qed.

Lemma answered_no_fault cmds tr : answered cmds tr → ∀ c e, Ev c (Fault e) ∉ tr.
Proof.
  induction 1 as [|c ev cmds tr [v ->] _ IH]; intros c0 e0 Hin.
  - by apply elem_of_nil in Hin.
  - apply elem_of_cons in Hin as [[=]|Hin]. by eapply IH.
Qed.

Lemma kept_first_per_key threshold r : ∀ seen,
  kept threshold r seen =
  filter (fun y => record_key y ∉ seen)
    (first_per_key (filter (fun x => crosses threshold x = true) r)).
Proof.
  induction r as [|x r IH]; intros seen; [done|]. simpl.
  rewrite filter_cons. destruct (crosses threshold x) eqn:Hc.
  - rewrite decide_True by done. simpl. rewrite filter_cons.
    case_bool_decide as Hs.
    + rewrite decide_False by (by intros ?). rewrite IH, list_filter_filter.
      apply list_filter_iff. intros y. split; [|by intros [? _]].
      intros Hy. split; [done|]. intros Heq. apply Hy. by rewrite Heq.
    + rewrite decide_True by done. f_equal. rewrite IH, list_filter_filter.
      apply list_filter_iff. intros y. rewrite elem_of_app, list_elem_of_singleton.
      tauto.
  - rewrite decide_False by (by intros ?). apply IH.
Qed.

Lemma filter_all {A : Type} (P : A → Prop) `{∀ x, Decision (P x)} (l : list A) :
  (∀ x, x ∈ l → P x) → filter P l = l.
Proof.
  induction l as [|x l IH]; intros Hall; [done|].
  rewrite filter_cons_True by (apply Hall; left).
  f_equal. apply IH. intros y Hy. apply Hall. by right.
Qed.

(** The loop computes the filter. *)
Lemma kept_threshold_filter threshold r :
  kept threshold r [] = threshold_filter threshold r.
Proof.
  rewrite kept_first_per_key. unfold threshold_filter.
  apply filter_all. intros y _. apply not_elem_of_nil.
Qed.

Section Loop.
Context `{PyRuntime}.

Lemma select_pass_returned cutoff selName1 r : ∀ seen rVal st tr out st',
  exec (select_pass cutoff selName1 r seen rVal) st tr (Returned out) st' →
  st' = st ∧ out = rVal ++ kept_for cutoff r seen ∧
  answered (map (select_cmd selName1) (kept_for cutoff r seen)) tr ∧
  (r ≠ [] → ∃ threshold, float cutoff = inr threshold).
Proof.
  unfold kept_for.
  induction r as [|[[model resi] diff] r IH]; intros seen rVal st tr out st' Hx.
  - apply exec_ret_inv in Hx as (-> & [= <-] & ->).
    destruct (float cutoff); rewrite app_nil_r; split_and!; try done; constructor.
  - simpl in Hx. unfold mbind, script_bind in Hx.
    destruct (float cutoff) as [e|threshold] eqn:Hf; simpl in Hx; [by inversion Hx|].
    change (float_ge (float_abs diff) threshold) with (crosses threshold (model, resi, diff)) in Hx.
    change (key_of model resi) with (record_key (model, resi, diff)) in Hx.
    simpl kept. destruct (crosses threshold (model, resi, diff)).
    + case_bool_decide.
      * apply IH in Hx as (-> & -> & Ha & _). eauto.
      * apply exec_call_returned in Hx as (v & tr' & -> & Hx).
        apply IH in Hx as (-> & -> & Ha & _).
        split_and!; [done|by rewrite <- app_assoc| |eauto].
        simpl. by apply answered_cons.
    + apply IH in Hx as (-> & -> & Ha & _). eauto.
Qed.
End Loop.

(** ** The shape of returning runs: proofs *)

Ltac step_returned Hx :=
  let v := fresh "v" in let tr := fresh "tr" in
  apply exec_call_returned in Hx as (v & tr & -> & Hx).

Section InterfaceResidues.
Context `{PyRuntime}.

Lemma interfaceResidues_returned cmpx cA cB cutoff selName st tr rVal st' :
  exec (interfaceResidues cmpx cA cB cutoff selName) st tr (Returned rVal) st' →
  ∃ oldDS atoms,
    shape cmpx cA cB selName oldDS atoms rVal tr ∧
    st' = Some atoms ∧
    rVal = kept_for cutoff atoms [] ∧
    (atoms ≠ [] → ∃ threshold, float cutoff = inr threshold).
Proof.
  intros Hx. unfold interfaceResidues in Hx.
  cbn [bind mbind mret script_bind script_ret cmd cmd_value iterate set_stored_r
       get_stored_r lift] in Hx.
  apply exec_call_returned in Hx as (oldDS & tr0 & -> & Hx).
  do 11 step_returned Hx.
  inversion Hx as [| | | | | | |? ? ? ? ? ? Hx1| | |]; subst; clear Hx.
  inversion Hx1 as [| | | |? ? ? atoms ? st1 tr1 ? ? Ha Hx| | | | | |]; subst; clear Hx1.
  assert (st1 = Some atoms) as -> by (by destruct atoms; injection Ha as <-).
  do 2 step_returned Hx.
  inversion Hx as [| | | | | | | |? ? ? ? ? Hx1| |]; subst; clear Hx.
  apply exec_bind_inv in Hx1 as [(e & [=] & _)|(out & trl & st2 & trc & -> & Hl & Hx)].
  apply select_pass_returned in Hl as (-> & -> & Hl & Hf).
  do 7 step_returned Hx.
  apply exec_ret_inv in Hx as (-> & [= ->] & ->).
  exists oldDS, atoms. split_and!; try done.
  eexists [_;_;_;_;_;_;_;_;_;_;_], (_ :: _ :: trl), [_;_;_;_;_;_;_].
  split_and!; [done|repeat apply answered_cons; constructor| |repeat apply answered_cons; constructor].
  do 2 apply answered_cons. done.
Qed.
End InterfaceResidues.

Section InterfaceResiduesRuns.
Context `{PyRuntime}.

(** The loop returns whenever [float(cutoff)] does (or there is nothing
    to visit) and the host answers its calls. *)
Lemma select_pass_returns cutoff selName1 r : ∀ seen rVal st,
  (r = [] ∨ ∃ threshold, float cutoff = inr threshold) →
  ∃ tr, exec (select_pass cutoff selName1 r seen rVal) st tr
          (Returned (rVal ++ kept_for cutoff r seen)) st.
Proof.
  unfold kept_for.
  induction r as [|[[model resi] diff] r IH]; intros seen rVal st Hok.
  - exists []. simpl. destruct (float cutoff); rewrite app_nil_r; constructor.
  - destruct Hok as [[=]|[threshold Hf]].
    simpl. unfold mbind, script_bind. rewrite Hf. simpl.
    change (float_ge (float_abs diff) threshold) with (crosses threshold (model, resi, diff)).
    change (key_of model resi) with (record_key (model, resi, diff)).
    rewrite Hf in IH.
    destruct (crosses threshold (model, resi, diff)).
    + case_bool_decide.
      * apply IH. eauto.
      * destruct (IH (seen ++ [record_key (model, resi, diff)])
                     (rVal ++ [(model, resi, diff)]) st) as [tr Hx]; [eauto|].
        eexists. eapply (exec_call _ _ PyNone). rewrite <- app_assoc in Hx. apply Hx.
    + apply IH. eauto.
Qed.

(** [interfaceResidues] returns for every answer to [cmd.get] and every
    list of visited atoms, provided [float(cutoff)] does not raise when
    atoms are visited. *)
Lemma interfaceResidues_returns cmpx cA cB cutoff selName st (oldDS : pyval)
    (atoms : list record) :
  (atoms = [] ∨ ∃ threshold, float cutoff = inr threshold) →
  ∃ tr, exec (interfaceResidues cmpx cA cB cutoff selName) st tr
          (Returned (kept_for cutoff atoms [])) (Some atoms) ∧
        Ev (CmdIterate "chA or chB" iterate_expr) (Visited atoms) ∈ tr.
Proof.
  intros Hok.
  destruct (select_pass_returns cutoff (selName +:+ "1") atoms [] [] (Some atoms) Hok)
    as [trl Hl].
  eexists. split.
  - unfold interfaceResidues.
    cbn [bind mbind mret script_bind script_ret cmd cmd_value iterate set_stored_r
         get_stored_r lift].
    eapply (exec_call _ _ oldDS).
    do 11 eapply (exec_call _ _ PyNone).
    eapply exec_set_stored. eapply (exec_iterate _ _ _ atoms).
    { by destruct atoms. }
    do 2 eapply (exec_call _ _ PyNone).
    eapply exec_get_stored. eapply exec_bind; [apply Hl|]. simpl.
    do 7 eapply (exec_call _ _ PyNone). constructor.
  - do 12 apply list_elem_of_further. apply list_elem_of_here.
Qed.
End InterfaceResiduesRuns.

(** ** Order facts on binary64 comparison *)

Lemma float_le_trans (x y z : pyfloat) :
  float_le x y = true → float_le y z = true → float_le x z = true.
Proof.
  unfold float_le, SFleb.
  destruct x as [sx|sx| |sx mx ex], y as [sy|sy| |sy my ey], z as [sz|sz| |sz mz ez];
    simpl; try done;
    repeat match goal with s : bool |- _ => destruct s end; simpl; try done.
  all: repeat match goal with
         | |- context [PosDef.Pos.compare_cont Eq ?a ?b] =>
             change (PosDef.Pos.compare_cont Eq a b) with (a ?= b)%positive
         end.
  all: destruct (Z.compare_spec ex ey), (Z.compare_spec ey ez), (Z.compare_spec ex ez);
    try done; try lia; subst.
  all: destruct (Pos.compare_spec mx my), (Pos.compare_spec my mz), (Pos.compare_spec mx mz);
    simpl; try done; try lia.
Qed.

(** Every number that is not NaN has [abs(x) >= 0.0], for either zero. *)
Lemma float_abs_ge_zero (s : bool) (x : pyfloat) :
  is_nan x = false → float_ge (float_abs x) (S754_zero s) = true.
Proof. by destruct x as [?|?| |[] ? ?]. Qed.

Lemma float_nan_not_ge (t : pyfloat) : float_ge (float_abs S754_nan) t = false.
Proof. by destruct t. Qed.

Lemma crosses_antitone (t1 t2 : pyfloat) (x : record) :
  float_le t1 t2 = true → crosses t2 x = true → crosses t1 x = true.
Proof. unfold crosses, float_ge. apply float_le_trans. Qed.

(** ** Keys *)

Lemma string_length_app (s t : string) :
  String.length (s +:+ t) = (String.length s + String.length t)%nat.
Proof. induction s as [|a s IH]; simpl; [done|]. by rewrite IH. Qed.

Lemma string_app_inj_length (s1 s2 t1 t2 : string) :
  s1 +:+ t1 = s2 +:+ t2 → String.length t1 = String.length t2 → s1 = s2 ∧ t1 = t2.
Proof.
  revert s2. induction s1 as [|a s1 IH]; intros [|b s2] Heq Hlen.
  - done.
  - change (t1 = String b (s2 +:+ t2)) in Heq. subst t1.
    simpl in Hlen. rewrite string_length_app in Hlen. lia.
  - change (String a (s1 +:+ t1) = t2) in Heq. subst t2.
    simpl in Hlen. rewrite string_length_app in Hlen. lia.
  - change (String a (s1 +:+ t1) = String b (s2 +:+ t2)) in Heq.
    injection Heq as -> Heq. destruct (IH _ Heq Hlen) as [-> ->]. done.
Qed.

(** On the atoms of the two extracted chains the key names the residue: the
    object names have the same length. *)
Lemma key_of_inj (m1 r1 m2 r2 : string) :
  m1 ∈ chain_objects → m2 ∈ chain_objects →
  key_of m1 r1 = key_of m2 r2 → m1 = m2 ∧ r1 = r2.
Proof.
  unfold key_of. intros H1 H2 Heq.
  assert (∀ m, m ∈ chain_objects → String.length ("-" +:+ m) = 4%nat) as Hlen.
  { intros m Hm. unfold chain_objects in Hm.
    repeat (apply elem_of_cons in Hm as [->|Hm]; [done|]). by apply elem_of_nil in Hm. }
  apply string_app_inj_length in Heq as [-> Heq].
  - split; [|done]. by apply (inj (String.app "-")) in Heq.
  - by rewrite !Hlen.
Qed.

Lemma record_key_inj (x y : record) :
  model_of x ∈ chain_objects → model_of y ∈ chain_objects →
  record_key x = record_key y → model_of x = model_of y ∧ resi_of x = resi_of y.
Proof. apply key_of_inj. Qed.

(** ** Facts about the worded filter *)

Lemma first_per_key_sublist (l : list record) : first_per_key l `sublist_of` l.
Proof.
  induction l as [|x l IH]; simpl; [done|].
  apply sublist_skip. etrans; [apply sublist_filter|done].
Qed.

Lemma first_per_key_NoDup (l : list record) : NoDup (record_key <$> first_per_key l).
Proof.
  induction l as [|x l IH]; simpl; [constructor|].
  apply NoDup_cons. split.
  - intros (y & Hk & Hy)%list_elem_of_fmap. apply list_elem_of_filter in Hy as [Hne _]. done.
  - refine (sublist_NoDup _ _ IH _). apply fmap_sublist. apply sublist_filter.
Qed.

Lemma first_per_key_covers (l : list record) (x : record) :
  x ∈ l → ∃ y, y ∈ first_per_key l ∧ record_key y = record_key x.
Proof.
  induction l as [|a l IH]; intros Hin; [by apply elem_of_nil in Hin|].
  apply elem_of_cons in Hin as [->|Hin]; simpl.
  - exists a. split; [left|done].
  - destruct (IH Hin) as (y & Hy & Hk).
    destruct (decide (record_key y = record_key a)) as [Heq|Hne].
    + exists a. split; [left|congruence].
    + exists y. split; [|done]. right. by apply list_elem_of_filter.
Qed.

Lemma elem_of_first_per_key (l : list record) (x : record) :
  x ∈ first_per_key l →
  ∃ pre post, l = pre ++ x :: post ∧ ∀ y, y ∈ pre → record_key y ≠ record_key x.
Proof.
  induction l as [|a l IH]; simpl; intros Hin; [by apply elem_of_nil in Hin|].
  apply elem_of_cons in Hin as [->|Hin].
  - exists [], l. split; [done|]. intros y Hy. by apply elem_of_nil in Hy.
  - apply list_elem_of_filter in Hin as [Hne Hin].
    destruct (IH Hin) as (pre & post & -> & Hpre).
    exists (a :: pre), post. split; [done|].
    intros y [->|Hy]%elem_of_cons; [congruence|by apply Hpre].
Qed.

Lemma filter_split {A : Type} (P : A → Prop) `{∀ x, Decision (P x)}
    (l : list A) (pre' : list A) (x : A) (post' : list A) :
  filter P l = pre' ++ x :: post' →
  ∃ pre post, l = pre ++ x :: post ∧ filter P pre = pre' ∧ filter P post = post'.
Proof.
  revert pre'. induction l as [|a l IH]; intros pre' Heq.
  - by destruct pre'.
  - rewrite filter_cons in Heq. destruct (decide (P a)) as [Ha|Ha].
    + destruct pre' as [|b pre']; simpl in Heq.
      * injection Heq as -> Heq. exists [], l. done.
      * injection Heq as -> Heq. destruct (IH _ Heq) as (pre & post & -> & <- & <-).
        exists (b :: pre), post. split_and!; [done| |done].
        by rewrite filter_cons_True.
    + destruct (IH _ Heq) as (pre & post & -> & <- & <-).
      exists (a :: pre), post. split_and!; [done| |done].
      by rewrite filter_cons_False.
Qed.

(** Membership in the filter: the record crosses the threshold and no
    earlier record that crosses it has the same key. *)
Lemma elem_of_threshold_filter (threshold : pyfloat) (l : list record) (x : record) :
  x ∈ threshold_filter threshold l →
  crosses threshold x = true ∧
  ∃ pre post, l = pre ++ x :: post ∧
    ∀ y, y ∈ pre → crosses threshold y = true → record_key y ≠ record_key x.
Proof.
  unfold threshold_filter. intros Hin. split.
  - apply elem_of_sublist with (l2 := filter (fun x => crosses threshold x = true) l) in Hin;
      [|apply first_per_key_sublist].
    by apply list_elem_of_filter in Hin as [? _].
  - apply elem_of_first_per_key in Hin as (pre' & post' & Heq & Hpre).
    apply filter_split in Heq as (pre & post & -> & <- & <-).
    exists pre, post. split; [done|]. intros y Hy Hc. apply Hpre.
    by apply list_elem_of_filter.
Qed.

Lemma threshold_filter_covers (threshold : pyfloat) (l : list record) (x : record) :
  x ∈ l → crosses threshold x = true →
  ∃ y, y ∈ threshold_filter threshold l ∧ record_key y = record_key x.
Proof.
  intros Hin Hc. apply first_per_key_covers. by apply list_elem_of_filter.
Qed.

Lemma threshold_filter_sublist (threshold : pyfloat) (l : list record) :
  threshold_filter threshold l `sublist_of` l.
Proof. etrans; [apply first_per_key_sublist|apply sublist_filter]. Qed.

(** ** The result of [interfaceResidues] *)

Lemma answered_not_visited cmds tr : answered cmds tr → ∀ c atoms, Ev c (Visited atoms) ∉ tr.
Proof.
  induction 1 as [|c ev cmds tr [v ->] _ IH]; intros c0 a0 Hin.
  - by apply elem_of_nil in Hin.
  - apply elem_of_cons in Hin as [[=]|Hin]. by eapply IH.
Qed.

(** A complete run has one [cmd.iterate]. *)
Lemma shape_visited cmpx cA cB selName oldDS atoms rVal tr c atoms' :
  shape cmpx cA cB selName oldDS atoms rVal tr →
  Ev c (Visited atoms') ∈ tr → atoms' = atoms.
Proof.
  intros (tr1 & tr2 & tr3 & -> & H1 & H2 & H3) Hin.
  apply elem_of_cons in Hin as [[=]|Hin].
  apply elem_of_app in Hin as [Hin|Hin]; [by eapply answered_not_visited in Hin|].
  apply elem_of_cons in Hin as [[= _ ->]|Hin]; [done|].
  apply elem_of_app in Hin as [Hin|Hin]; by eapply answered_not_visited in Hin.
Qed.

Lemma shape_iterate cmpx cA cB selName oldDS atoms rVal tr :
  shape cmpx cA cB selName oldDS atoms rVal tr →
  Ev (CmdIterate "chA or chB" iterate_expr) (Visited atoms) ∈ tr.
Proof.
  intros (tr1 & tr2 & tr3 & -> & _). right. apply elem_of_app. right. left.
Qed.

Section Result.
Context `{PyRuntime}.

Lemma interfaceResidues_result cmpx cA cB cutoff selName st tr rVal st' atoms :
  exec (interfaceResidues cmpx cA cB cutoff selName) st tr (Returned rVal) st' →
  Ev (CmdIterate "chA or chB" iterate_expr) (Visited atoms) ∈ tr →
  match float cutoff with
  | inr threshold => rVal = threshold_filter threshold atoms
  | inl _ => atoms = [] ∧ rVal = []
  end.
Proof.
  intros (oldDS & atoms0 & Hs & _ & -> & Hf)%interfaceResidues_returned Hin.
  apply (shape_visited _ _ _ _ _ _ _ _ _ _ Hs) in Hin as ->.
  unfold kept_for in *. destruct (float cutoff) as [e|threshold].
  - split; [|done]. destruct atoms0; [done|]. by destruct Hf as [? [=]].
  - apply kept_threshold_filter.
Qed.

(** C1.  [interfaceResidues] is a threshold filter over the area
    differences the host computes.  In every run that returns, with
    [atoms] the (model, resi, b) records that [cmd.iterate] visits on
    ["chA or chB"], the returned list is [atoms] restricted to the records
    with [abs(b) >= float(cutoff)], in iteration order, with only the first
    such record of each key [resi+"-"+model].  (When [float(cutoff)] raises,
    a run returns only if no atom is visited, and then returns the empty
    list.) *)
Theorem interfaceResidues_threshold_filter cmpx cA cB cutoff selName st tr rVal st' :
  exec (interfaceResidues cmpx cA cB cutoff selName) st tr (Returned rVal) st' →
  ∃ atoms,
    Ev (CmdIterate "chA or chB" iterate_expr) (Visited atoms) ∈ tr ∧
    rVal `sublist_of` atoms ∧
    NoDup (record_key <$> rVal) ∧
    match float cutoff with
    | inr threshold => rVal = threshold_filter threshold atoms
    | inl _ => atoms = [] ∧ rVal = []
    end.
Proof.
  intros Hx.
  destruct (interfaceResidues_returned _ _ _ _ _ _ _ _ _ Hx) as (oldDS & atoms & Hs & _).
  exists atoms. pose proof (shape_iterate _ _ _ _ _ _ _ _ Hs) as Hin.
  pose proof (interfaceResidues_result _ _ _ _ _ _ _ _ _ _ Hx Hin) as Hr.
  split; [done|]. destruct (float cutoff) as [e|threshold].
  - destruct Hr as [-> ->]. split_and!; try done. constructor.
  - subst rVal. split_and!; [apply threshold_filter_sublist|apply first_per_key_NoDup|done].
Qed.
End Result.

Lemma interfaceResidues_threshold_filter_witness :
  ∃ atoms,
    Ev (CmdIterate "chA or chB" iterate_expr) (Visited atoms) ∈ sample_trace_2 ∧
    sample_rVal_2 `sublist_of` atoms ∧
    NoDup (record_key <$> sample_rVal_2) ∧
    match @float sample_runtime (PyFloat (decimal 20 1)) with
    | inr threshold => sample_rVal_2 = threshold_filter threshold atoms
    | inl _ => atoms = [] ∧ sample_rVal_2 = []
    end.
Proof.
  apply (@interfaceResidues_threshold_filter sample_runtime "cx" "c. A" "c. B"
           (PyFloat (decimal 20 1)) "interface" None sample_trace_2 sample_rVal_2
           (Some sample_atoms)).
  apply play_exec with (rs := sample_replies sample_atoms 2). vm_compute. reflexivity.
Defined.

Lemma float_abs_neg (x : pyfloat) : float_abs (float_neg x) = float_abs x.
Proof. by destruct x. Qed.

Lemma record_eta (x : record) : x = (model_of x, resi_of x, diff_of x).
Proof. by destruct x as [[??]?]. Qed.

Section Residues.
Context `{PyRuntime}.

(** C2.  A residue of the two extracted chains is returned as soon as one
    of its atoms has [abs(b) >= float(cutoff)] (non-strict, on the
    absolute value, so that [b] and [-b] qualify alike); the value
    reported for it is the [b] of the first such atom in iteration order;
    and every (model, resi) pair occurs at most once in the result. *)
Theorem interfaceResidues_first_qualifying_atom
    cmpx cA cB cutoff selName st tr rVal st' atoms threshold :
  exec (interfaceResidues cmpx cA cB cutoff selName) st tr (Returned rVal) st' →
  Ev (CmdIterate "chA or chB" iterate_expr) (Visited atoms) ∈ tr →
  float cutoff = inr threshold →
  (∀ x, x ∈ atoms → model_of x ∈ chain_objects) →
  (∀ model resi,
     (∃ diff, (model, resi, diff) ∈ rVal) ↔
     (∃ diff, (model, resi, diff) ∈ atoms ∧
              float_ge (float_abs diff) threshold = true)) ∧
  (∀ diff, float_ge (float_abs (float_neg diff)) threshold =
           float_ge (float_abs diff) threshold) ∧
  (∀ model resi diff, (model, resi, diff) ∈ rVal →
     ∃ pre post, atoms = pre ++ (model, resi, diff) :: post ∧
       float_ge (float_abs diff) threshold = true ∧
       ∀ diff', (model, resi, diff') ∈ pre →
                float_ge (float_abs diff') threshold = false) ∧
  NoDup ((fun x => (model_of x, resi_of x)) <$> rVal).
Proof.
  intros Hx Hin Hf Hch.
  pose proof (interfaceResidues_result _ _ _ _ _ _ _ _ _ _ Hx Hin) as Hr.
  rewrite Hf in Hr. subst rVal. split_and!.
  - intros model resi. split.
    + intros [diff Hd]. exists diff.
      split; [|by apply elem_of_threshold_filter in Hd as [Hc _]].
      eapply elem_of_sublist; [exact Hd|apply threshold_filter_sublist].
    + intros (diff & Hd & Hc).
      destruct (threshold_filter_covers threshold atoms _ Hd Hc) as (y & Hy & Hk).
      assert (y ∈ atoms) as Hya
        by (eapply elem_of_sublist; [exact Hy|apply threshold_filter_sublist]).
      apply record_key_inj in Hk as [Hm Hr]; [|by apply Hch..].
      change (model_of y = model) in Hm. change (resi_of y = resi) in Hr.
      exists (diff_of y). rewrite <- Hm, <- Hr, <- record_eta. done.
  - intros diff. by rewrite float_abs_neg.
  - intros model resi diff Hd.
    apply elem_of_threshold_filter in Hd as (Hc & pre & post & -> & Hpre).
    exists pre, post. split_and!; [done|done|].
    intros diff' Hd'. specialize (Hpre _ Hd').
    change (crosses threshold (model, resi, diff') = false).
    destruct (crosses threshold (model, resi, diff')); [|done].
    by destruct Hpre.
  - apply (NoDup_fmap_1 (fun mr : string * string => key_of mr.1 mr.2)).
    rewrite <- list_fmap_compose. apply first_per_key_NoDup.
Qed.

(** C10, as it holds.  For fixed visited atoms of the two extracted
    chains and cutoffs with [float(c1) <= float(c2)], every residue
    (model, resi) returned with [c2] is returned with [c1] too; the value
    reported with it may differ.  With cutoff zero and area differences
    that are numbers, the result is the first record of every key: every
    visited residue is kept, once. *)
Theorem interfaceResidues_cutoff_antitone_on_residues
    cmpx cA cB c1 c2 selName st1 tr1 rVal1 st1' st2 tr2 rVal2 st2' atoms t1 t2 :
  exec (interfaceResidues cmpx cA cB c1 selName) st1 tr1 (Returned rVal1) st1' →
  exec (interfaceResidues cmpx cA cB c2 selName) st2 tr2 (Returned rVal2) st2' →
  Ev (CmdIterate "chA or chB" iterate_expr) (Visited atoms) ∈ tr1 →
  Ev (CmdIterate "chA or chB" iterate_expr) (Visited atoms) ∈ tr2 →
  (∀ x, x ∈ atoms → model_of x ∈ chain_objects) →
  float c1 = inr t1 → float c2 = inr t2 → float_le t1 t2 = true →
  (∀ model resi diff, (model, resi, diff) ∈ rVal2 →
     ∃ diff', (model, resi, diff') ∈ rVal1) ∧
  (∀ s, t1 = S754_zero s → (∀ x, x ∈ atoms → is_nan (diff_of x) = false) →
     rVal1 = first_per_key atoms ∧
     NoDup ((fun x => (model_of x, resi_of x)) <$> rVal1) ∧
     ∀ model resi diff, (model, resi, diff) ∈ atoms →
       ∃ diff', (model, resi, diff') ∈ rVal1).
Proof.
  intros Hx1 Hx2 Hin1 Hin2 Hch Hf1 Hf2 Hle.
  pose proof (interfaceResidues_result _ _ _ _ _ _ _ _ _ _ Hx1 Hin1) as Hr1.
  pose proof (interfaceResidues_result _ _ _ _ _ _ _ _ _ _ Hx2 Hin2) as Hr2.
  rewrite Hf1 in Hr1. rewrite Hf2 in Hr2. subst rVal1 rVal2.
  assert (∀ t x, x ∈ atoms → crosses t x = true →
            ∃ diff', (model_of x, resi_of x, diff') ∈ threshold_filter t atoms) as Hcov.
  { intros t x Hd Hc.
    destruct (threshold_filter_covers t atoms _ Hd Hc) as (y & Hy & Hk).
    assert (y ∈ atoms) as Hya
      by (eapply elem_of_sublist; [exact Hy|apply threshold_filter_sublist]).
    apply record_key_inj in Hk as [Hm Hr]; [|by apply Hch..].
    exists (diff_of y). rewrite <- Hm, <- Hr, <- record_eta. done. }
  split.
  - intros model resi diff Hd.
    assert ((model, resi, diff) ∈ atoms) as Hda
      by (eapply elem_of_sublist; [exact Hd|apply threshold_filter_sublist]).
    apply elem_of_threshold_filter in Hd as [Hc _].
    apply (Hcov t1 _ Hda). by apply (crosses_antitone t1 t2).
  - intros s -> Hnan.
    assert (∀ x, x ∈ atoms → crosses (S754_zero s) x = true) as Hall.
    { intros x Hd. apply float_abs_ge_zero. by apply Hnan. }
    split_and!.
    + unfold threshold_filter. by rewrite filter_all.
    + apply (NoDup_fmap_1 (fun mr : string * string => key_of mr.1 mr.2)).
      rewrite <- list_fmap_compose. apply first_per_key_NoDup.
    + intros model resi diff Hd. apply (Hcov _ _ Hd). by apply Hall.
Qed.
End Residues.

Lemma interfaceResidues_first_qualifying_atom_witness :
  (∀ model resi,
     (∃ diff, (model, resi, diff) ∈ sample_rVal_2) ↔
     (∃ diff, (model, resi, diff) ∈ sample_atoms ∧
              float_ge (float_abs diff) (decimal 20 1) = true)) ∧
  (∀ diff, float_ge (float_abs (float_neg diff)) (decimal 20 1) =
           float_ge (float_abs diff) (decimal 20 1)) ∧
  (∀ model resi diff, (model, resi, diff) ∈ sample_rVal_2 →
     ∃ pre post, sample_atoms = pre ++ (model, resi, diff) :: post ∧
       float_ge (float_abs diff) (decimal 20 1) = true ∧
       ∀ diff', (model, resi, diff') ∈ pre →
                float_ge (float_abs diff') (decimal 20 1) = false) ∧
  NoDup ((fun x => (model_of x, resi_of x)) <$> sample_rVal_2).
Proof.
  apply (@interfaceResidues_first_qualifying_atom sample_runtime "cx" "c. A" "c. B"
           (PyFloat (decimal 20 1)) "interface" None sample_trace_2 sample_rVal_2
           (Some sample_atoms) sample_atoms (decimal 20 1)).
  - apply play_exec with (rs := sample_replies sample_atoms 2). vm_compute. reflexivity.
  - do 12 apply list_elem_of_further. apply list_elem_of_here.
  - reflexivity.
  - apply Forall_forall. repeat constructor.
Defined.

(** C10 as stated fails: on the sample atoms the triple
    [("chA", "1", 3.0)] is returned with cutoff 2.0 and not with cutoff 1.0,
    which returns residue 1 of chain A with its first atom's 1.5. *)
Lemma interfaceResidues_cutoff_not_antitone_on_triples :
  float_le (decimal 10 1) (decimal 20 1) = true ∧
  sample_run (PyFloat (decimal 10 1)) 2
    = Some (sample_trace_1, Returned sample_rVal_1, Some sample_atoms) ∧
  sample_run (PyFloat (decimal 20 1)) 2
    = Some (sample_trace_2, Returned sample_rVal_2, Some sample_atoms) ∧
  ("chA", "1", decimal 30 1) ∈ sample_rVal_2 ∧
  ("chA", "1", decimal 30 1) ∉ sample_rVal_1.
Proof.
  split_and!; [by vm_compute..| |].
  - left.
  - intros Hin. unfold sample_rVal_1 in Hin.
    repeat (apply elem_of_cons in Hin as [Hin|Hin]; [by vm_compute in Hin|]).
    by apply elem_of_nil in Hin.
Qed.

Lemma interfaceResidues_cutoff_antitone_on_residues_witness :
  (∀ model resi diff, (model, resi, diff) ∈ sample_rVal_2 →
     ∃ diff', (model, resi, diff') ∈ sample_rVal_0) ∧
  (∀ s, float_of_Z 0 = S754_zero s →
     (∀ x, x ∈ sample_atoms → is_nan (diff_of x) = false) →
     sample_rVal_0 = first_per_key sample_atoms ∧
     NoDup ((fun x => (model_of x, resi_of x)) <$> sample_rVal_0) ∧
     ∀ model resi diff, (model, resi, diff) ∈ sample_atoms →
       ∃ diff', (model, resi, diff') ∈ sample_rVal_0).
Proof.
  apply (@interfaceResidues_cutoff_antitone_on_residues sample_runtime "cx" "c. A" "c. B"
           (PyInt 0) (PyFloat (decimal 20 1)) "interface"
           None sample_trace_0 sample_rVal_0 (Some sample_atoms)
           None sample_trace_2 sample_rVal_2 (Some sample_atoms)
           sample_atoms (float_of_Z 0) (decimal 20 1)).
  - apply play_exec with (rs := sample_replies sample_atoms 3). vm_compute. reflexivity.
  - apply play_exec with (rs := sample_replies sample_atoms 2). vm_compute. reflexivity.
  - do 12 apply list_elem_of_further. apply list_elem_of_here.
  - do 12 apply list_elem_of_further. apply list_elem_of_here.
  - apply Forall_forall. repeat constructor.
  - reflexivity.
  - reflexivity.
  - reflexivity.
Defined.

(** ** Every command: results, determinism, failures *)

Lemma play_writes_first {R : Type} (p : script R) :
  writes_first p → ∀ st1 st2 rs tr o st1',
  play p st1 rs = Some (tr, o, st1') →
  ∃ st2', play p st2 rs = Some (tr, o, st2').
Proof.
  induction 1 as [r|e|c k _ IH|l k|s k _ IH]; intros st1 st2 rs tr o st1' Hp; simpl in *.
  - destruct rs; [|done]. injection Hp as <- <- <-. eauto.
  - destruct rs; [|done]. injection Hp as <- <- <-. eauto.
  - destruct rs as [|[v|atoms|e] rs]; try done.
    + destruct (play (k v) st1 rs) as [[[tr0 o0] st0]|] eqn:E; [|done].
      injection Hp as <- <- <-.
      destruct (IH v _ st2 _ _ _ _ E) as [st2' ->]. eauto.
    + destruct rs; [|done]. injection Hp as <- <- <-. eauto.
  - eauto.
  - destruct (play k st1 rs) as [[[tr0 o0] st0]|] eqn:E; [|done].
    injection Hp as <- <- <-.
    destruct (IH _ st2 _ _ _ _ E) as [st2' ->]. eauto.
Qed.

Section EveryCommand.
Context `{PyRuntime}.

Lemma run_command_writes_first (i : invocation) : writes_first (run_command i).
Proof.
  destruct i as [cmpx cA cB cutoff selName|path config|config| | |selection];
    unfold run_command, fmap, script_fmap, interfaceResidues, initial_orientation,
      reset_view, split_chains, ray_settings, hydrophobicity;
    cbn [bind mbind mret script_bind script_ret cmd cmd_value iterate set_stored_r
         get_stored_r lift print];
    repeat (first [apply wf_set | apply wf_ret | apply wf_print
                  | apply wf_call; intros _ | apply wf_call; intros ?]);
    repeat (destruct (py_eq_str config _); cbn [bind cmd];
            repeat (first [apply wf_ret | apply wf_call; intros _])).
Qed.

(** C7.  Two runs of the same command with the same arguments, in which
    the host gives the same replies, issue the same calls in the same
    order, print the same text and end in the same way, whatever
    [stored.r] held before either run. *)
Theorem run_command_deterministic i st1 tr1 o1 st1' st2 tr2 o2 st2' :
  exec (run_command i) st1 tr1 o1 st1' →
  exec (run_command i) st2 tr2 o2 st2' →
  replies tr1 = replies tr2 →
  issued tr1 = issued tr2 ∧ tr1 = tr2 ∧ o1 = o2.
Proof.
  intros H1 H2 Hr. apply exec_play in H1, H2.
  destruct (play_writes_first _ (run_command_writes_first i) _ st2 _ _ _ _ H1) as [st' H1'].
  rewrite Hr, H2 in H1'. by injection H1' as -> ->.
Qed.

Lemma exec_fmap_returned {A B : Type} (f : A → B) (m : script A) st tr v st' :
  exec (f <$> m) st tr (Returned v) st' →
  ∃ a, v = f a ∧ exec m st tr (Returned a) st'.
Proof.
  intros [(e & [=] & _)|(a & tr1 & st1 & tr2 & -> & H1 & H2)]%exec_bind_inv.
  apply exec_ret_inv in H2 as (-> & [= ->] & ->). rewrite app_nil_r. eauto.
Qed.

Lemma exec_fmap_raised {A B : Type} (f : A → B) (m : script A) st tr e st' :
  exec (f <$> m) st tr (Raised e) st' → exec m st tr (Raised e) st'.
Proof.
  intros [(e' & [= <-] & He)|(a & tr1 & st1 & tr2 & -> & H1 & H2)]%exec_bind_inv; [done|].
  by apply exec_ret_inv in H2 as (_ & [=] & _).
Qed.

(** C3, as it holds.  A command that returns, returns [None], except
    [interfaceResidues], which returns a list of (model, resi, diff)
    tuples: two texts and a number each.  Neither is one text or one
    number. *)
Theorem run_command_returns_none_or_records i st tr v st' :
  exec (run_command i) st tr (Returned v) st' →
  match i with
  | InterfaceResidues _ _ _ _ _ =>
      ∃ rVal : list record,
        v = PyList ((fun x => PyTuple [PyStr (model_of x); PyStr (resi_of x);
                                       PyFloat (diff_of x)]) <$> rVal)
  | _ => v = PyNone
  end ∧ simple_value v = false.
Proof.
  destruct i; unfold run_command; intros (a & -> & _)%exec_fmap_returned; split; try done.
  exists a. unfold py_of_records. f_equal. apply list_fmap_ext.
  by intros _ [[??]?] _.
Qed.
End EveryCommand.

(** C3 as stated fails: [reset_view('1')] returns [None], and
    [interfaceResidues] returns a list; neither is a text or a number. *)
Lemma run_command_result_not_simple :
  outcome_of (play (@run_command sample_runtime (ResetView (PyStr "1"))) None [Value PyNone])
    = Some (Returned PyNone) ∧
  simple_value PyNone = false ∧
  outcome_of (play (@run_command sample_runtime
                      (InterfaceResidues "cx" "c. A" "c. B" (PyFloat (decimal 20 1)) "interface"))
                None (sample_replies sample_atoms 2))
    = Some (Returned (py_of_records sample_rVal_2)) ∧
  simple_value (py_of_records sample_rVal_2) = false.
Proof. by vm_compute. Qed.

Lemma run_command_returns_none_or_records_witness :
  PyNone = PyNone ∧ simple_value PyNone = false.
Proof.
  apply (@run_command_returns_none_or_records sample_runtime (ResetView (PyStr "1")) None
           (trace_of (play (reset_view (PyStr "1")) None [Value PyNone])) PyNone None).
  apply play_exec with (rs := [Value PyNone]). vm_compute. reflexivity.
Defined.

Lemma run_command_deterministic_witness :
  issued sample_trace_2 = issued sample_trace_2 ∧
  sample_trace_2 = sample_trace_2 ∧
  Returned (py_of_records sample_rVal_2) = Returned (py_of_records sample_rVal_2).
Proof.
  apply (@run_command_deterministic sample_runtime
           (InterfaceResidues "cx" "c. A" "c. B" (PyFloat (decimal 20 1)) "interface")
           None sample_trace_2 (Returned (py_of_records sample_rVal_2)) (Some sample_atoms)
           (Some []) sample_trace_2 (Returned (py_of_records sample_rVal_2))
           (Some sample_atoms)).
  - apply play_exec with (rs := sample_replies sample_atoms 2). vm_compute. reflexivity.
  - apply play_exec with (rs := sample_replies sample_atoms 2). vm_compute. reflexivity.
  - reflexivity.
Defined.

(** ** Views: [initial_orientation] and [reset_view] *)

Lemma py_eq_str_true (v : pyval) (s : string) : py_eq_str v s = true ↔ v = PyStr s.
Proof.
  destruct v; simpl; try (split; [done|by intros [=]]).
  rewrite String.eqb_eq. split; [by intros ->|by intros [= ->]].
Qed.

Lemma py_eq_str_false (v : pyval) (s : string) : py_eq_str v s = false ↔ v ≠ PyStr s.
Proof.
  rewrite <- py_eq_str_true. destruct (py_eq_str v s); split; try done; by intros [].
Qed.

Ltac step_any Hx :=
  let e := fresh "e" in let v := fresh "v" in let tr := fresh "tr" in
  apply exec_call_inv in Hx as [(e & -> & -> & ->)|(v & tr & -> & Hx)].

(** C5.  For [config] ['1'] or ['2'], [reset_view(config)] passes to
    [cmd.set_view] the very 18 numbers that a complete
    [initial_orientation(path, config)] passes to it, and each of the two
    makes that one [cmd.set_view] call. *)
Theorem reset_view_same_matrix path config st1 tr1 st1' st2 tr2 o2 st2' :
  config = PyStr "1" ∨ config = PyStr "2" →
  exec (initial_orientation path config) st1 tr1 (Returned tt) st1' →
  exec (reset_view config) st2 tr2 o2 st2' →
  ∃ view, length view = 18%nat ∧ views tr1 = [view] ∧ views tr2 = [view].
Proof.
  intros Hc Hx1 Hx2. unfold initial_orientation, reset_view in *.
  cbn [bind mbind mret script_bind script_ret cmd] in Hx1, Hx2.
  do 6 step_returned Hx1.
  destruct Hc as [-> | ->]; cbn [py_eq_str String.eqb Ascii.eqb Bool.eqb] in Hx1, Hx2;
    unfold cmd in Hx1, Hx2;
    step_returned Hx1; apply exec_ret_inv in Hx1 as (-> & _ & _);
    (step_any Hx2; [|apply exec_ret_inv in Hx2 as (-> & _ & _)]);
    (eexists; split; [|split; reflexivity]; reflexivity).
Qed.

Lemma reset_view_same_matrix_witness :
  ∃ view, length view = 18%nat ∧
    views (trace_of (play (initial_orientation "models/dock2.pdb" (PyStr "2")) None
                       (repeat (Value PyNone) 7))) = [view] ∧
    views (trace_of (play (reset_view (PyStr "2")) None [Value PyNone])) = [view].
Proof.
  apply (reset_view_same_matrix "models/dock2.pdb" (PyStr "2")
           None _ None None _ (Returned tt) None).
  - by right.
  - apply play_exec with (rs := repeat (Value PyNone) 7). vm_compute. reflexivity.
  - apply play_exec with (rs := [Value PyNone]). vm_compute. reflexivity.
Defined.

(** C9.  [config] is compared with the strings ['1'] and ['2'] only.  For
    any other value (the integers 1 and 2 included) [reset_view] makes no
    call at all and returns; [initial_orientation] makes no [cmd.set_view]
    call in any run, and a complete run of it is exactly the six calls that
    reinitialize, load, rename and colour the surface. *)
Theorem config_other_sets_no_view path config :
  config ≠ PyStr "1" → config ≠ PyStr "2" →
  (∀ st tr o st', exec (reset_view config) st tr o st' →
     tr = [] ∧ o = Returned tt ∧ st' = st) ∧
  (∀ st tr o st', exec (initial_orientation path config) st tr o st' → views tr = []) ∧
  (∀ st tr st', exec (initial_orientation path config) st tr (Returned tt) st' →
     answered (load_cmds path) tr) ∧
  (∀ st, ∃ tr, exec (initial_orientation path config) st tr (Returned tt) st).
Proof.
  intros H1%py_eq_str_false H2%py_eq_str_false.
  unfold initial_orientation, reset_view.
  cbn [bind mbind mret script_bind script_ret cmd]. rewrite H1, H2.
  split_and!.
  - intros st tr o st' Hx. by apply exec_ret_inv in Hx.
  - intros st tr o st' Hx.
    do 6 (step_any Hx; [reflexivity|]).
    by apply exec_ret_inv in Hx as (-> & _ & _).
  - intros st tr st' Hx. do 6 step_returned Hx.
    apply exec_ret_inv in Hx as (-> & _ & _).
    unfold load_cmds. repeat apply answered_cons. constructor.
  - intros st. eexists. do 6 eapply (exec_call _ _ PyNone). constructor.
Qed.

Lemma config_other_sets_no_view_witness :
  (∀ st tr o st', exec (reset_view (PyInt 1)) st tr o st' →
     tr = [] ∧ o = Returned tt ∧ st' = st) ∧
  (∀ st tr o st', exec (initial_orientation "models/dock1.pdb" (PyInt 1)) st tr o st' →
     views tr = []) ∧
  (∀ st tr st', exec (initial_orientation "models/dock1.pdb" (PyInt 1)) st tr (Returned tt) st' →
     answered (load_cmds "models/dock1.pdb") tr) ∧
  (∀ st, ∃ tr, exec (initial_orientation "models/dock1.pdb" (PyInt 1)) st tr (Returned tt) st).
Proof. apply (config_other_sets_no_view "models/dock1.pdb" (PyInt 1)); discriminate. Defined.

(** ** Failures *)

Lemma exec_throw_inv {R : Type} (e : pyexn) st tr (o : outcome R) st' :
  exec (Throw e) st tr o st' → tr = [] ∧ o = Raised e ∧ st' = st.
Proof. by inversion 1. Qed.

Lemma exec_set_stored_inv {R : Type} l (k : script R) st tr o st' :
  exec (SetStored l k) st tr o st' → exec k (Some l) tr o st'.
Proof. by inversion 1. Qed.

Lemma exec_get_stored_inv {R : Type} (k : list record → script R) l tr o st' :
  exec (GetStored k) (Some l) tr o st' → exec (k l) (Some l) tr o st'.
Proof. by inversion 1. Qed.

Lemma exec_iterate_inv {R : Type} sel expr (k : script R) l tr o st' :
  exec (IterateStored sel expr k) (Some l) tr o st' →
  (∃ e, tr = [Ev (CmdIterate sel expr) (Fault e)] ∧ o = Raised e) ∨
  (∃ atoms tr', tr = Ev (CmdIterate sel expr) (Visited atoms) :: tr' ∧
     exec k (Some (l ++ atoms)) tr' o st').
Proof.
  inversion 1 as [| | | |? ? ? atoms ? st1 tr' ? ? Ha Hk|? ? ? atoms ? e Ha| | | | |]; subst.
  - right. exists atoms, tr'. split; [done|].
    destruct atoms; injection Ha as <-; [by rewrite app_nil_r|done].
  - by destruct atoms.
  - left. eauto.
Qed.

Ltac step_raised Hx :=
  let e := fresh "e" in let v := fresh "v" in let tr := fresh "tr" in
  apply exec_call_inv in Hx as [(e & -> & _)|(v & tr & -> & Hx)].

Ltac close_no_restore Hev :=
  repeat (constructor; [apply Hev; first [by left|by right; left|by right;right]|]);
  try constructor.

Section Failures.
Context `{PyRuntime}.

(** Whatever its outcome, the loop calls nothing but [cmd.select]. *)
Lemma select_pass_only_selects cutoff selName1 r : ∀ seen rVal st tr o st',
  exec (select_pass cutoff selName1 r seen rVal) st tr o st' → Forall is_select tr.
Proof.
  induction r as [|[[model resi] diff] r IH]; intros seen rVal st tr o st' Hx.
  - apply exec_ret_inv in Hx as (-> & _). constructor.
  - simpl in Hx. unfold mbind, script_bind in Hx.
    destruct (float cutoff) as [e|threshold]; simpl in Hx.
    { apply exec_throw_inv in Hx as (-> & _). constructor. }
    destruct (float_ge (float_abs diff) threshold); [|by eapply IH].
    case_bool_decide; [by eapply IH|].
    apply exec_call_inv in Hx as [(e & -> & _)|(v & tr' & -> & Hx)].
    + repeat constructor. by eexists _, _, _.
    + constructor; [by eexists _, _, _|by eapply IH].
Qed.

Lemma is_select_no_restore ev : is_select ev → no_restore ev.
Proof. intros (n & s & r & ->) v r' [=]. Qed.

(** A run of [interfaceResidues] that raises has not put [dot_solvent]
    back: the only value it has set it to is 1. *)
Lemma interfaceResidues_raised_no_restore cmpx cA cB cutoff selName st tr e st' :
  exec (interfaceResidues cmpx cA cB cutoff selName) st tr (Raised e) st' →
  Forall no_restore tr.
Proof.
  intros Hx. unfold interfaceResidues in Hx.
  cbn [bind mbind mret script_bind script_ret cmd cmd_value iterate set_stored_r
       get_stored_r lift] in Hx.
  assert (∀ c r, c ≠ CmdSet dot_solvent (match c with CmdSet _ v _ => v | _ => PyNone end) None
                 ∨ c = CmdSet dot_solvent (PyInt 1) None ∨ is_fault r = true →
                 no_restore (Ev c r)) as Hev.
  { intros c r [Hc|[->|Hr]] v r' [= -> ->]; [by destruct Hc|done|done]. }
  do 12 (step_raised Hx; [close_no_restore Hev|]).
  apply exec_set_stored_inv in Hx.
  apply exec_iterate_inv in Hx as [(e' & -> & _)|(atoms & tr' & -> & Hx)];
    [close_no_restore Hev|].
  do 2 (step_raised Hx; [close_no_restore Hev|]).
  apply exec_get_stored_inv in Hx.
  apply exec_bind_inv in Hx as [(e' & _ & Hl)|(rVal & trl & st1 & trc & -> & Hl & Hx)].
  - apply select_pass_only_selects in Hl.
    repeat (constructor; [apply Hev; first [by left|by right; left|by right;right]|]).
    eapply Forall_impl; [exact Hl|apply is_select_no_restore].
  - apply select_pass_only_selects in Hl.
    assert (Forall no_restore trc) as Hc.
    { do 7 (step_raised Hx; [close_no_restore Hev|]). by apply exec_ret_inv in Hx as (_ & [=] & _). }
    repeat (constructor; [apply Hev; first [by left|by right; left|by right;right]|]).
    apply Forall_app. split; [|done].
    eapply Forall_impl; [exact Hl|apply is_select_no_restore].
Qed.

(** C6.  No command handles a failure.  When a host call fails in a run
    of any of the six commands, the run ends there (the failing call is
    the last event of the trace) and raises the host's exception as it is.
    For [interfaceResidues] this leaves [dot_solvent] as the script set
    it: no call of the run has set it to anything but 1. *)
Theorem run_command_fault_propagates i st tr o st' c e :
  exec (run_command i) st tr o st' →
  Ev c (Fault e) ∈ tr →
  o = Raised e ∧
  (∃ tr0, tr = tr0 ++ [Ev c (Fault e)]) ∧
  match i with
  | InterfaceResidues _ _ _ _ _ =>
      ∀ v r, Ev (CmdSet dot_solvent v None) (Value r) ∈ tr → v = PyInt 1
  | _ => True
  end.
Proof.
  intros Hx Hin. destruct (exec_fault_last _ _ _ _ _ Hx _ _ Hin) as [-> Hlast].
  split_and!; [done|done|]. destruct i; try done.
  unfold run_command in Hx. apply exec_fmap_raised in Hx.
  apply interfaceResidues_raised_no_restore in Hx.
  intros v r Hv. rewrite Forall_forall in Hx. by eapply Hx.
Qed.
End Failures.

Lemma run_command_fault_propagates_witness :
  (Raised (Exn "CmdException" "get_area failed") : outcome pyval)
    = Raised (Exn "CmdException" "get_area failed") ∧
  (∃ tr0,
     trace_of (play (@run_command sample_runtime
                       (InterfaceResidues "cx" "c. A" "c. B" (PyFloat (decimal 10 1)) "interface"))
                 None (Value (PyStr "off") :: repeat (Value PyNone) 4
                       ++ [Fault (Exn "CmdException" "get_area failed")]))
     = tr0 ++ [Ev (CmdGetArea tempComplex 1) (Fault (Exn "CmdException" "get_area failed"))]) ∧
  ∀ v r,
    Ev (CmdSet dot_solvent v None) (Value r) ∈
      trace_of (play (@run_command sample_runtime
                        (InterfaceResidues "cx" "c. A" "c. B" (PyFloat (decimal 10 1)) "interface"))
                  None (Value (PyStr "off") :: repeat (Value PyNone) 4
                        ++ [Fault (Exn "CmdException" "get_area failed")])) →
    v = PyInt 1.
Proof.
  apply (@run_command_fault_propagates sample_runtime
           (InterfaceResidues "cx" "c. A" "c. B" (PyFloat (decimal 10 1)) "interface")
           None _ _ None).
  - apply play_exec with (rs := Value (PyStr "off") :: repeat (Value PyNone) 4
                                ++ [Fault (Exn "CmdException" "get_area failed")]).
    vm_compute. reflexivity.
  - vm_compute. do 5 apply list_elem_of_further. apply list_elem_of_here.
Defined.

(** ** [hydrophobicity] *)

Lemma exec_print_inv {R : Type} s (k : script R) st tr o st' :
  exec (PrintOut s k) st tr o st' → ∃ tr', tr = Out s :: tr' ∧ exec k st tr' o st'.
Proof. inversion 1; subst. eauto. Qed.

(** A complete run prints the selection, defines the twenty colours and
    applies each to its residue name within the selection. *)
Lemma hydrophobicity_returned selection st tr st' :
  exec (hydrophobicity selection) st tr (Returned tt) st' →
  ∃ tr1 tr2, tr = Out selection :: tr1 ++ tr2 ∧
    Forall2 defines colouring_order tr1 ∧
    answered (color_cmd selection <$> colouring_order) tr2.
Proof.
  intros Hx. unfold hydrophobicity, str in Hx.
  cbn [bind mbind mret script_bind script_ret cmd print] in Hx.
  apply exec_print_inv in Hx as (tr' & -> & Hx).
  do 40 step_returned Hx. apply exec_ret_inv in Hx as (-> & _ & _).
  eexists [_;_;_;_;_;_;_;_;_;_;_;_;_;_;_;_;_;_;_;_], _.
  split; [reflexivity|]. split.
  - repeat (constructor; [by eexists _, _|]). constructor.
  - repeat apply answered_cons. constructor.
Qed.

Lemma colouring_order_standard : colouring_order ≡ₚ standard_residues.
Proof. apply (bool_decide_unpack (colouring_order ≡ₚ standard_residues)). vm_compute. exact I. Qed.

Section Frame.
Context {atom : Type}.
Variable selects : string → atom → bool.

Lemma paint_frame (a : atom) (tr : list event) : ∀ col,
  Forall (fun ev => ∀ col, paint_event selects ev col a = col a) tr →
  paint selects tr col a = col a.
Proof.
  unfold paint. induction tr as [|ev tr IH]; intros col Hall; [done|].
  apply Forall_cons in Hall as [Hev Hall]. simpl. by rewrite IH.
Qed.

Lemma defines_frame (a : atom) names tr :
  Forall2 defines names tr →
  Forall (fun ev => ∀ col, paint_event selects ev col a = col a) tr.
Proof. induction 1 as [|x ev names tr (rgb & v & ->) _ IH]; constructor; done. Qed.

Lemma color_cmds_frame (a : atom) s names tr :
  (∀ x, x ∈ names → selects (resn_selection s x) a = false) →
  answered (color_cmd s <$> names) tr →
  Forall (fun ev => ∀ col, paint_event selects ev col a = col a) tr.
Proof.
  revert tr. induction names as [|x names IH]; intros tr Hf Ha.
  - apply Forall2_nil_inv_l in Ha as ->. constructor.
  - apply Forall2_cons_inv_l in Ha as (ev & tr' & [v ->] & Ha & ->).
    constructor.
    + intros col. simpl. rewrite Hf; [done|left].
    + apply IH; [|done]. intros y Hy. apply Hf. by right.
Qed.

(** X10.  [hydrophobicity(selection)] defines twenty named colours and
    makes one [cmd.color] call for each of the twenty standard residue
    names [X], on ["(selection and resn X)"], the selection pasted in as
    it is.  For a selection that the host reads, in that expression, as the
    atoms of the selection whose residue name is [X], an atom outside the
    selection, and an atom of the selection whose residue name is none of
    the twenty, has after a complete run the colour it had before. *)
Theorem hydrophobicity_colors_inside_selection
    (resn_is : string → atom → bool) selection st tr st' :
  (∀ x a, x ∈ standard_residues →
     selects (resn_selection selection x) a = selects selection a && resn_is x a) →
  exec (hydrophobicity selection) st tr (Returned tt) st' →
  (∃ tr1 tr2, tr = Out selection :: tr1 ++ tr2 ∧
     Forall2 defines colouring_order tr1 ∧
     answered (color_cmd selection <$> colouring_order) tr2) ∧
  colouring_order ≡ₚ standard_residues ∧
  length colouring_order = 20%nat ∧
  ∀ col a,
    selects selection a = false ∨ (∀ x, x ∈ standard_residues → resn_is x a = false) →
    paint selects tr col a = col a.
Proof.
  intros Hsel Hx. pose proof (hydrophobicity_returned _ _ _ _ Hx) as Hs.
  split_and!; [done|apply colouring_order_standard|done|].
  intros col a Ha. destruct Hs as (tr1 & tr2 & -> & H1 & H2).
  apply paint_frame. constructor; [done|]. apply Forall_app. split.
  - by eapply defines_frame.
  - eapply color_cmds_frame; [|done]. intros x Hin.
    rewrite Hsel by (by rewrite <- colouring_order_standard).
    destruct Ha as [->|Ha]; [done|]. rewrite Ha; [apply andb_false_r|].
    by rewrite <- colouring_order_standard.
Qed.
End Frame.

Lemma sample_selects_resn (x : string) (a : sample_atom) :
  sample_selects (resn_selection "all" x) a = sample_selects "all" a && sample_resn_is x a.
Proof.
  destruct a as [inside resn]. unfold sample_selects, sample_resn_is.
  cbn [fst snd].
  change (String.eqb (resn_selection "all" x) "all") with false.
  change (String.eqb "all" "all") with true. cbv iota.
  f_equal. destruct (String.eqb_spec x resn) as [->|Hne].
  - apply String.eqb_refl.
  - apply String.eqb_neq. unfold resn_selection. intros Heq.
    apply (inj (String.app "(")) in Heq. apply (inj (String.app "all")) in Heq.
    apply (inj (String.app " and resn ")) in Heq.
    apply string_app_inj_length in Heq as [? _]; done.
Qed.

Lemma hydrophobicity_colors_inside_selection_witness :
  (∃ tr1 tr2,
     trace_of (play (hydrophobicity "all") None (repeat (Value PyNone) 40))
       = Out "all" :: tr1 ++ tr2 ∧
     Forall2 defines colouring_order tr1 ∧
     answered (color_cmd "all" <$> colouring_order) tr2) ∧
  colouring_order ≡ₚ standard_residues ∧
  length colouring_order = 20%nat ∧
  ∀ col (a : sample_atom),
    sample_selects "all" a = false ∨
    (∀ x, x ∈ standard_residues → sample_resn_is x a = false) →
    paint sample_selects
      (trace_of (play (hydrophobicity "all") None (repeat (Value PyNone) 40))) col a = col a.
Proof.
  apply (hydrophobicity_colors_inside_selection sample_selects sample_resn_is "all"
           None _ None).
  - intros x a _. apply sample_selects_resn.
  - apply play_exec with (rs := repeat (Value PyNone) 40). vm_compute. reflexivity.
Defined.

(** C8.  The code does not keep to it.  [hydrophobicity] pastes the
    selection into ["("+s+" and resn X)"] without parentheses of its own.
    For ['chain A or chain B'] the twenty calls are on
    ["(chain A or chain B and resn X)"], which the host's selection algebra
    reads as chain A, or chain B with residue name [X].  A water of chain
    A, which is in the selection and is none of the twenty residues, is
    recoloured by every call and ends the run with the last colour,
    [color_arg3], not the colour it had; a water of chain B and an atom
    of chain C keep theirs. *)
Theorem hydrophobicity_repaints_unparenthesised_selection :
  play (hydrophobicity "chain A or chain B") None (repeat (Value PyNone) 40)
    = Some (trace_of (play (hydrophobicity "chain A or chain B") None
                        (repeat (Value PyNone) 40)),
            Returned tt, None) ∧
  CmdColor "color_arg3" "(chain A or chain B and resn arg)" ∈
    issued (trace_of (play (hydrophobicity "chain A or chain B") None
                        (repeat (Value PyNone) 40))) ∧
  algebra_selects "chain A or chain B" ("A", "hoh") = true ∧
  ("hoh" ∉ standard_residues) ∧
  paint algebra_selects
    (trace_of (play (hydrophobicity "chain A or chain B") None (repeat (Value PyNone) 40)))
    (fun _ => "red") ("A", "hoh") = "color_arg3" ∧
  paint algebra_selects
    (trace_of (play (hydrophobicity "chain A or chain B") None (repeat (Value PyNone) 40)))
    (fun _ => "red") ("B", "hoh") = "red" ∧
  paint algebra_selects
    (trace_of (play (hydrophobicity "chain A or chain B") None (repeat (Value PyNone) 40)))
    (fun _ => "red") ("C", "leu") = "red".
Proof.
  split_and!; try (by vm_compute).
  - vm_compute. do 39 apply list_elem_of_further. apply list_elem_of_here.
  - apply (bool_decide_unpack ("hoh" ∉ standard_residues)). vm_compute. exact I.
Qed.

(** ** What [interfaceResidues] leaves behind *)

Lemma follows_app tr1 tr2 s s' :
  follows (tr1 ++ tr2) s s' ↔ ∃ s1, follows tr1 s s1 ∧ follows tr2 s1 s'.
Proof.
  revert s. induction tr1 as [|ev tr1 IH]; intros s; simpl.
  - split; [eauto|]. by intros (s1 & -> & ?).
  - split.
    + intros (s1 & Ho & (s2 & ? & ?)%IH). eauto.
    + intros (s2 & (s1 & Ho & ?) & ?). exists s1. split; [done|]. apply IH. eauto.
Qed.

Lemma follows_answered cmds tr : answered cmds tr →
  Forall (fun c => is_get c = false) cmds →
  ∀ s s', follows tr s s' → track_all cmds s = Some s'.
Proof.
  induction 1 as [|c ev cmds tr [v ->] _ IH]; intros Hg s s' Hf; simpl in *.
  - by subst.
  - apply Forall_cons in Hg as [Hc Hg]. destruct Hf as (s1 & Ho & Hf).
    assert (track c s = Some s1) as -> by (by destruct c).
    by apply IH.
Qed.

Lemma track_all_app cmds1 cmds2 s :
  track_all (cmds1 ++ cmds2) s =
  match track_all cmds1 s with Some s1 => track_all cmds2 s1 | None => None end.
Proof.
  revert s. induction cmds1 as [|c cmds1 IH]; intros s; simpl; [done|].
  destruct (track c s); [apply IH|done].
Qed.

(** The selections of the loop all go to the one name. *)
Lemma track_all_selects n l : ∀ s s',
  track_all (map (select_cmd n) l) s = Some s' →
  settings s' = settings s ∧ enabled s' = enabled s ∧
  names s ⊆ names s' ∧ names s' ⊆ names s ∪ {[n]}.
Proof.
  induction l as [|x l IH]; intros s s' Ht; simpl in Ht.
  - injection Ht as <-. set_solver.
  - apply IH in Ht as (-> & -> & H1 & H2). simpl in *. set_solver.
Qed.

Lemma string_app_ne (s t : string) : t ≠ EmptyString → s +:+ t ≠ s.
Proof.
  intros Ht Heq. apply (f_equal String.length) in Heq.
  rewrite string_length_app in Heq. destruct t; [done|simpl in Heq; lia].
Qed.

Section LeftBehind.
Context `{PyRuntime}.

(** C4, as it holds.  After a run of [interfaceResidues] that returns,
    whatever the names of the complex and of the selection: the settings
    are what they were on entry ([dot_solvent] included); none of the four
    temporary names exists; the only name the session may have gained is
    [selName], which exists and is enabled unless it is itself one of the
    fixed temporary names; and [stored.r] is left holding the records that
    [cmd.iterate] visited.  The complex is enabled if its name is not one
    of the temporaries (a complex of such a name goes with the temporary). *)
Theorem interfaceResidues_leaves_selection_and_stored
    cmpx cA cB cutoff selName st tr rVal st' s s' :
  exec (interfaceResidues cmpx cA cB cutoff selName) st tr (Returned rVal) st' →
  follows tr s s' →
  settings s' = settings s ∧
  (∀ n, n ∈ temporaries selName → n ∉ names s') ∧
  names s' ⊆ names s ∪ {[selName]} ∧
  (selName ∉ [tempComplex; "chA"; "chB"] →
     selName ∈ names s' ∧ selName ∈ enabled s') ∧
  (cmpx ∉ temporaries selName → cmpx ∈ enabled s') ∧
  ∃ atoms, Ev (CmdIterate "chA or chB" iterate_expr) (Visited atoms) ∈ tr ∧
           st' = Some atoms.
Proof.
  intros Hx Hf.
  apply interfaceResidues_returned in Hx as (oldDS & atoms & Hs & -> & _).
  pose proof (shape_iterate _ _ _ _ _ _ _ _ Hs) as Hin.
  destruct Hs as (tr1 & tr2 & tr3 & -> & H1 & H2 & H3).
  destruct Hf as (s0 & [Hget ->] & Hf).
  apply follows_app in Hf as (s1 & Hf1 & s2 & Ho & Hf).
  apply follows_app in Hf as (s3 & Hf2 & Hf3).
  apply (follows_answered _ _ H1) in Hf1; [|by repeat constructor].
  apply (follows_answered _ _ H3) in Hf3; [|by repeat constructor].
  apply (follows_answered _ _ H2) in Hf2;
    [|unfold collect_cmds; do 2 (constructor; [done|]); by apply Forall_fmap, Forall_true].
  injection Ho as <-. injection Hf1 as <-.
  unfold collect_cmds in Hf2. rewrite track_all_app in Hf2.
  apply track_all_selects in Hf2 as (Hs3 & He3 & Hn3 & Hn3').
  injection Hf3 as <-. cbn [settings names enabled] in *.
  assert (selName +:+ "1" ≠ selName) as Hne by (by apply string_app_ne).
  unfold temporaries in *. rewrite Hs3, He3.
  split_and!.
  - rewrite insert_insert_eq. by apply insert_id.
  - intros n Hn. set_solver.
  - set_solver.
  - intros Hsel. set_solver.
  - intros Hcmpx. set_solver.
  - eauto.
Qed.
End LeftBehind.

Lemma follows_track_all tr : ∀ s s',
  Forall tracked tr → track_all (issued tr) s = Some s' → follows tr s s'.
Proof.
  induction tr as [|ev tr IH]; intros s s' Hall Ht.
  - by injection Ht as <-.
  - apply Forall_cons in Hall as [Hev Hall]. destruct ev as [c r|text].
    + change (issued (Ev c r :: tr)) with (c :: issued tr) in Ht. simpl in Ht.
      destruct (track c s) as [s1|] eqn:Hc; [|done].
      exists s1. split; [|by apply IH].
      destruct r; [| |done]; by destruct c.
    + exists s. split; [done|]. by apply IH.
Qed.

Lemma sample_follows : follows sample_trace_2 sample_session sample_session_after.
Proof.
  unfold sample_trace_2.
  exists sample_session. split.
  { split; [|reflexivity]. by vm_compute. }
  apply follows_track_all.
  - repeat (constructor; [reflexivity|]). constructor.
  - cbv [track_all track issued omap list_omap sample_session settings names enabled].
    reflexivity.
Qed.

Lemma interfaceResidues_leaves_selection_and_stored_witness :
  settings sample_session_after = settings sample_session ∧
  (∀ n, n ∈ temporaries "interface" → n ∉ names sample_session_after) ∧
  names sample_session_after ⊆ names sample_session ∪ {[ "interface" ]} ∧
  ("interface" ∉ [tempComplex; "chA"; "chB"] →
     "interface" ∈ names sample_session_after ∧
     "interface" ∈ enabled sample_session_after) ∧
  ("cx" ∉ temporaries "interface" → "cx" ∈ enabled sample_session_after) ∧
  ∃ atoms, Ev (CmdIterate "chA or chB" iterate_expr) (Visited atoms) ∈ sample_trace_2 ∧
           Some sample_atoms = Some atoms.
Proof.
  apply (@interfaceResidues_leaves_selection_and_stored sample_runtime "cx" "c. A" "c. B"
           (PyFloat (decimal 20 1)) "interface" None sample_trace_2 sample_rVal_2
           (Some sample_atoms) sample_session sample_session_after).
  - apply play_exec with (rs := sample_replies sample_atoms 2). vm_compute. reflexivity.
  - apply sample_follows.
Defined.

Lemma sample_follows_chA :
  follows sample_trace_chA sample_session_chA sample_session_chA_after.
Proof.
  unfold sample_trace_chA.
  exists sample_session_chA. split.
  { split; [|reflexivity]. by vm_compute. }
  apply follows_track_all.
  - repeat (constructor; [reflexivity|]). constructor.
  - cbv [track_all track issued omap list_omap sample_session_chA settings names enabled].
    reflexivity.
Qed.

(** C4 as stated fails.  [stored.r], unset before the sample run, holds
    the four visited records after it.  And the complex is not always
    enabled again: in the sample run on a complex that is itself called
    ["chA"], the complex, enabled before, is neither enabled nor there
    after the run has deleted its temporary of that name. *)
Lemma interfaceResidues_leaves_stored_r :
  sample_run (PyFloat (decimal 20 1)) 2
    = Some (sample_trace_2, Returned sample_rVal_2, Some sample_atoms) ∧
  (None : store) ≠ Some sample_atoms ∧
  play (@interfaceResidues sample_runtime "chA" "c. A" "c. B"
          (PyFloat (decimal 20 1)) "interface") None (sample_replies sample_atoms 2)
    = Some (sample_trace_chA, Returned sample_rVal_2, Some sample_atoms) ∧
  follows sample_trace_chA sample_session_chA sample_session_chA_after ∧
  "chA" ∈ enabled sample_session_chA ∧
  ("chA" ∉ enabled sample_session_chA_after) ∧
  ("chA" ∉ names sample_session_chA_after).
Proof.
  split_and!; [by vm_compute|done|by vm_compute|apply sample_follows_chA|..].
  - unfold sample_session_chA. cbn [enabled]. set_solver.
  - unfold sample_session_chA_after. cbn [enabled]. set_solver.
  - unfold sample_session_chA_after. cbn [names]. set_solver.
Qed.


(** ** The model name [initial_orientation] takes from the path *)

Lemma split_on_nonempty sep s : split_on sep s ≠ [].
Proof.
  destruct s as [|c s]; simpl; [done|].
  destruct (Ascii.eqb c sep); [done|]. by destruct (split_on sep s).
Qed.

Lemma split_on_app sep a b :
  split_on sep (a +:+ String sep b) = split_on sep a ++ split_on sep b.
Proof.
  induction a as [|c a IH].
  - change (split_on sep (String sep b) = [EmptyString] ++ split_on sep b).
    simpl. by rewrite Ascii.eqb_refl.
  - change (split_on sep (String c (a +:+ String sep b))
            = split_on sep (String c a) ++ split_on sep b).
    simpl. rewrite IH. destruct (Ascii.eqb c sep); [done|].
    pose proof (split_on_nonempty sep a). by destruct (split_on sep a).
Qed.

Lemma split_on_no_sep sep s : contains_char sep s = false → split_on sep s = [s].
Proof.
  induction s as [|c s IH]; simpl; [done|].
  intros [Hc Hs]%orb_false_elim. rewrite Hc, (IH Hs). done.
Qed.

Lemma last_component_app (l1 l2 : list string) :
  l2 ≠ [] → last_component (l1 ++ l2) = last_component l2.
Proof.
  unfold last_component. intros Hne.
  destruct l2 as [|x l2 _] using rev_ind; [done|].
  by rewrite app_assoc, !List.last_last.
Qed.

(** The directories of a path do not matter. *)
Lemma last_component_dir dir file :
  contains_char "/" file = false →
  last_component (split_on "/" (dir +:+ String "/" file)) = file.
Proof.
  intros Hf. rewrite split_on_app, last_component_app by apply split_on_nonempty.
  by rewrite split_on_no_sep.
Qed.

Lemma prefix_cons_cons a p b s :
  String.prefix (String a p) (String b s) = Ascii.eqb a b && String.prefix p s.
Proof.
  cbn [String.prefix]. destruct (ascii_dec a b) as [->|Hne].
  - by rewrite Ascii.eqb_refl.
  - apply Ascii.eqb_neq in Hne. by rewrite Hne.
Qed.

Lemma prefix_cons_nil a p : String.prefix (String a p) EmptyString = false.
Proof. done. Qed.

(** An occurrence of [".pdb"] cannot begin in a text that has none and end
    in a following [".pdb"]: the pattern has its only dot in front. *)
Lemma prefix_pdb_no_straddle a rest :
  has_substring ".pdb" a = false →
  String.prefix ".pdb" (a +:+ ".pdb" +:+ rest) = true → a = EmptyString.
Proof.
  destruct a as [|c0 [|c1 [|c2 [|c3 a]]]]; [done|..]; intros Hno Hp; exfalso;
    cbn [has_substring] in Hno;
    apply orb_false_elim in Hno as [Hno _];
    cbv [String.append] in Hp;
    repeat (rewrite prefix_cons_cons in Hp;
            match type of Hp with
            | context [Ascii.eqb ?x ?y] =>
                destruct (Ascii.eqb_spec x y) as [?|?]; [subst|done]
            end; try done; cbn [andb] in Hp);
    repeat (rewrite prefix_cons_cons in Hno;
            match type of Hno with
            | context [Ascii.eqb ?x ?y] => rewrite (Ascii.eqb_refl x) in Hno
            end; cbn [andb] in Hno);
    try done.
  by destruct a.
Qed.

Lemma remove_all_from_skip_pdb a rest :
  has_substring ".pdb" a = false →
  remove_all_from ".pdb" O (a +:+ ".pdb" +:+ rest) = a +:+ remove_all_from ".pdb" O rest.
Proof.
  induction a as [|c a IH]; intros Hno.
  - destruct rest; reflexivity.
  - change (remove_all_from ".pdb" 0 (String c (a +:+ ".pdb" +:+ rest))
            = String c (a +:+ remove_all_from ".pdb" 0 rest)).
    cbn [remove_all_from].
    destruct (String.prefix ".pdb" (String c (a +:+ ".pdb" +:+ rest))) eqn:Hp.
    + by apply (prefix_pdb_no_straddle (String c a)) in Hp.
    + f_equal. apply IH. cbn [has_substring] in Hno. by apply orb_false_elim in Hno as [_ ?].
Qed.

Lemma remove_all_from_none s :
  has_substring ".pdb" s = false → remove_all_from ".pdb" O s = s.
Proof.
  induction s as [|c s IH]; intros Hno; [done|].
  cbn [has_substring] in Hno. apply orb_false_elim in Hno as [Hp Hno].
  cbn [remove_all_from]. rewrite Hp. f_equal. by apply IH.
Qed.

Lemma contains_char_app c a b :
  contains_char c (a +:+ b) = contains_char c a || contains_char c b.
Proof.
  induction a as [|x a IH]; [done|].
  change (contains_char c (String x (a +:+ b))
          = contains_char c (String x a) || contains_char c b).
  simpl. by rewrite IH, orb_assoc.
Qed.

Lemma model_name_of_file dirs file :
  contains_char "/" file = false →
  model_name file = remove_all ".pdb" file ∧
  model_name (dirs +:+ String "/" file) = remove_all ".pdb" file.
Proof.
  intros Hf. unfold model_name. by rewrite last_component_dir, split_on_no_sep.
Qed.

Lemma initial_orientation_first_calls path config st tr st' :
  exec (initial_orientation path config) st tr (Returned tt) st' →
  ∃ rest, issued tr
          = CmdReinitialize :: CmdLoad path :: CmdSetName (model_name path) "OM" :: rest.
Proof.
  intros Hx. unfold initial_orientation in Hx.
  cbn [bind mbind mret script_bind script_ret cmd] in Hx.
  do 3 step_returned Hx. by eexists.
Qed.

(** X1.  The object that [initial_orientation] renames to ["OM"] is named
    after the file alone, with [".pdb"] taken out wherever it stands: for a
    path [dirs/stem.pdb+tail] (or [stem.pdb+tail] without directories) in
    which [stem] and [tail] hold no ['/'] and no [".pdb"], the third call of
    a complete run is [cmd.set_name(stem+tail, "OM")].  With an empty
    [tail] this is the file name without its extension. *)
Theorem initial_orientation_renames_stem dirs stem tail path config st tr st' :
  contains_char "/" stem = false → contains_char "/" tail = false →
  has_substring ".pdb" stem = false → has_substring ".pdb" tail = false →
  path = stem +:+ ".pdb" +:+ tail ∨ path = dirs +:+ "/" +:+ stem +:+ ".pdb" +:+ tail →
  exec (initial_orientation path config) st tr (Returned tt) st' →
  ∃ rest, issued tr
          = CmdReinitialize :: CmdLoad path :: CmdSetName (stem +:+ tail) "OM" :: rest.
Proof.
  intros Hs Ht Hps Hpt Hpath Hx.
  apply initial_orientation_first_calls in Hx as [rest Hx]. exists rest.
  rewrite Hx. do 4 f_equal.
  assert (contains_char "/" (stem +:+ ".pdb" +:+ tail) = false) as Hf.
  { rewrite !contains_char_app, Hs, Ht. done. }
  destruct (model_name_of_file dirs _ Hf) as [H1 H2].
  assert (remove_all ".pdb" (stem +:+ ".pdb" +:+ tail) = stem +:+ tail) as Hr.
  { unfold remove_all. rewrite remove_all_from_skip_pdb by done.
    by rewrite remove_all_from_none. }
  destruct Hpath as [-> | ->]; [by rewrite H1|].
  change (dirs +:+ "/" +:+ stem +:+ ".pdb" +:+ tail)
    with (dirs +:+ String "/" (stem +:+ ".pdb" +:+ tail)).
  by rewrite H2.
Qed.

Lemma initial_orientation_renames_stem_witness :
  ∃ rest,
    issued (trace_of (play (initial_orientation "original-models/dock1.pdb" (PyStr "1"))
                        None (repeat (Value PyNone) 7)))
    = CmdReinitialize :: CmdLoad "original-models/dock1.pdb"
        :: CmdSetName ("dock1" +:+ "") "OM" :: rest.
Proof.
  apply (initial_orientation_renames_stem "original-models" "dock1" "" _ (PyStr "1")
           None _ None); try reflexivity.
  - by right.
  - apply play_exec with (rs := repeat (Value PyNone) 7). vm_compute. reflexivity.
Defined.

(** X2.  Nothing but [".pdb"] is taken off: when the last component of the
    path holds no [".pdb"] (another extension, or none), the object renamed
    is that component as it is, for a bare file name as for a path with
    directories; for a path that ends in ['/'] it is the object with the
    empty name. *)
Theorem initial_orientation_renames_last_component dirs file path config st tr st' :
  contains_char "/" file = false → has_substring ".pdb" file = false →
  path = file ∨ path = dirs +:+ "/" +:+ file →
  exec (initial_orientation path config) st tr (Returned tt) st' →
  ∃ rest, issued tr
          = CmdReinitialize :: CmdLoad path :: CmdSetName file "OM" :: rest.
Proof.
  intros Hf Hp Hpath Hx. apply initial_orientation_first_calls in Hx as [rest Hx].
  exists rest. rewrite Hx. do 4 f_equal.
  destruct (model_name_of_file dirs _ Hf) as [H1 H2].
  assert (remove_all ".pdb" file = file) as Hr
    by (unfold remove_all; by apply remove_all_from_none).
  destruct Hpath as [-> | ->]; [by rewrite H1|].
  change (dirs +:+ "/" +:+ file) with (dirs +:+ String "/" file). by rewrite H2.
Qed.

Lemma initial_orientation_renames_last_component_witness :
  (∃ rest,
     issued (trace_of (play (initial_orientation "dock1.ent" (PyStr "2"))
                         None (repeat (Value PyNone) 7)))
     = CmdReinitialize :: CmdLoad "dock1.ent" :: CmdSetName "dock1.ent" "OM" :: rest) ∧
  (∃ rest,
     issued (trace_of (play (initial_orientation "original-models/dock1.ent" (PyStr "2"))
                         None (repeat (Value PyNone) 7)))
     = CmdReinitialize :: CmdLoad "original-models/dock1.ent"
         :: CmdSetName "dock1.ent" "OM" :: rest) ∧
  (∃ rest,
     issued (trace_of (play (initial_orientation "original-models/" (PyStr "2"))
                         None (repeat (Value PyNone) 7)))
     = CmdReinitialize :: CmdLoad "original-models/"
         :: CmdSetName EmptyString "OM" :: rest).
Proof.
  split_and!.
  - apply (initial_orientation_renames_last_component "original-models" "dock1.ent"
             "dock1.ent" (PyStr "2") None _ None); try reflexivity.
    + by left.
    + apply play_exec with (rs := repeat (Value PyNone) 7). vm_compute. reflexivity.
  - apply (initial_orientation_renames_last_component "original-models" "dock1.ent"
             "original-models/dock1.ent" (PyStr "2") None _ None); try reflexivity.
    + by right.
    + apply play_exec with (rs := repeat (Value PyNone) 7). vm_compute. reflexivity.
  - apply (initial_orientation_renames_last_component "original-models" EmptyString
             "original-models/" (PyStr "2") None _ None); try reflexivity.
    + by right.
    + apply play_exec with (rs := repeat (Value PyNone) 7). vm_compute. reflexivity.
Defined.

(** ** More on [interfaceResidues] *)

Lemma issued_app tr1 tr2 : issued (tr1 ++ tr2) = issued tr1 ++ issued tr2.
Proof. apply omap_app. Qed.

Lemma issued_cons c r tr : issued (Ev c r :: tr) = c :: issued tr.
Proof. done. Qed.

Lemma filter_none {A : Type} (P : A → Prop) `{∀ x, Decision (P x)} (l : list A) :
  (∀ x, x ∈ l → ¬ P x) → filter P l = [].
Proof.
  induction l as [|x l IH]; intros Hall; [done|].
  rewrite filter_cons_False by (apply Hall; left).
  apply IH. intros y Hy. apply Hall. by right.
Qed.

Ltac no_fault Hnf :=
  exfalso; eapply Hnf;
  repeat first [apply list_elem_of_here | apply list_elem_of_further].

Ltac step_ok Hx Hnf :=
  let e := fresh "e" in let v := fresh "v" in let tr := fresh "tr" in
  apply exec_call_inv in Hx as [(e & -> & _)|(v & tr & -> & Hx)]; [no_fault Hnf|].

Section MoreInterfaceResidues.
Context `{PyRuntime}.

(** X3.  A complete run of [interfaceResidues] makes these calls and no
    other, in this order: [cmd.get], the eleven calls that build and measure
    the temporaries, [cmd.iterate], [cmd.enable], the empty selection, one
    [cmd.select] for each returned triple (in the order of the result,
    adding that triple's model and residue to [selName+"1"]), and the seven
    closing calls; the last of them sets [dot_solvent] to what the first
    call was answered. *)
Theorem interfaceResidues_call_sequence cmpx cA cB cutoff selName st tr rVal st' :
  exec (interfaceResidues cmpx cA cB cutoff selName) st tr (Returned rVal) st' →
  ∃ oldDS,
    (∃ rest, tr = Ev (CmdGet dot_solvent) (Value oldDS) :: rest) ∧
    issued tr = CmdGet dot_solvent :: prepare_cmds cmpx cA cB
                ++ CmdIterate "chA or chB" iterate_expr
                   :: collect_cmds cmpx selName rVal ++ cleanup_cmds cmpx selName oldDS ∧
    length (issued tr) = (22 + length rVal)%nat.
Proof.
  intros (oldDS & atoms & (tr1 & tr2 & tr3 & -> & H1 & H2 & H3) & _)%interfaceResidues_returned.
  exists oldDS. split; [by eexists|].
  assert (issued (Ev (CmdGet dot_solvent) (Value oldDS)
                  :: tr1 ++ Ev (CmdIterate "chA or chB" iterate_expr) (Visited atoms)
                     :: tr2 ++ tr3)
          = CmdGet dot_solvent :: prepare_cmds cmpx cA cB
            ++ CmdIterate "chA or chB" iterate_expr
               :: collect_cmds cmpx selName rVal ++ cleanup_cmds cmpx selName oldDS) as ->.
  { rewrite issued_cons, issued_app, issued_cons, issued_app.
    by rewrite (answered_issued _ _ H1), (answered_issued _ _ H2), (answered_issued _ _ H3). }
  split; [done|].
  unfold collect_cmds. simpl. rewrite !length_app, length_map. simpl. lia.
Qed.

(** X4.  The cutoff is first looked at inside the loop.  When
    [float(cutoff)] raises and [cmd.iterate] has visited an atom, a run in
    which no host call fails raises that exception after all the area
    work: the calls made are the first fifteen, up to the empty selection,
    so that none of the closing calls happens (the temporaries are not
    deleted and [dot_solvent] stays at 1) and [stored.r] holds the visited
    records. *)
Theorem interfaceResidues_bad_cutoff_raises_late
    cmpx cA cB cutoff selName st tr o st' e x atoms :
  float cutoff = inl e →
  exec (interfaceResidues cmpx cA cB cutoff selName) st tr o st' →
  (∀ c e', Ev c (Fault e') ∉ tr) →
  Ev (CmdIterate "chA or chB" iterate_expr) (Visited (x :: atoms)) ∈ tr →
  o = Raised e ∧
  st' = Some (x :: atoms) ∧
  issued tr = CmdGet dot_solvent :: prepare_cmds cmpx cA cB
              ++ [ CmdIterate "chA or chB" iterate_expr; CmdEnable cmpx;
                   CmdSelect (selName +:+ "1") "none" ].
Proof.
  intros Hf Hx Hnf Hin. unfold interfaceResidues in Hx.
  cbn [bind mbind mret script_bind script_ret cmd cmd_value iterate set_stored_r
       get_stored_r lift] in Hx.
  do 12 step_ok Hx Hnf.
  apply exec_set_stored_inv in Hx.
  apply exec_iterate_inv in Hx as [(e' & -> & _)|(atoms' & tr' & -> & Hx)];
    [no_fault Hnf|].
  do 2 step_ok Hx Hnf.
  apply exec_get_stored_inv in Hx.
  destruct atoms' as [|[[model resi] diff] atoms'].
  - exfalso. simpl in Hx. do 7 step_ok Hx Hnf.
    apply exec_ret_inv in Hx as (-> & _).
    repeat (apply elem_of_cons in Hin as [[=]|Hin]). by apply elem_of_nil in Hin.
  - simpl in Hx. unfold mbind, script_bind in Hx. rewrite Hf in Hx. simpl in Hx.
    apply exec_throw_inv in Hx as (-> & -> & ->).
    repeat (apply elem_of_cons in Hin as [Heq|Hin]; [try discriminate Heq|]).
    + injection Heq as <- <-. done.
    + by apply elem_of_nil in Hin.
Qed.

(** X5.  When [cmd.iterate] visits no atom the cutoff is never looked at:
    every complete run returns the empty list, and a complete run exists
    for every cutoff, also one that [float] rejects. *)
Theorem interfaceResidues_nothing_visited cmpx cA cB cutoff selName st :
  (∀ tr rVal st',
     exec (interfaceResidues cmpx cA cB cutoff selName) st tr (Returned rVal) st' →
     Ev (CmdIterate "chA or chB" iterate_expr) (Visited []) ∈ tr →
     rVal = [] ∧ st' = Some []) ∧
  (∀ oldDS : pyval, ∃ tr,
     exec (interfaceResidues cmpx cA cB cutoff selName) st tr (Returned []) (Some []) ∧
     Ev (CmdIterate "chA or chB" iterate_expr) (Visited []) ∈ tr).
Proof.
  split.
  - intros tr rVal st' Hx Hin.
    pose proof (interfaceResidues_result _ _ _ _ _ _ _ _ _ _ Hx Hin) as Hr.
    apply interfaceResidues_returned in Hx as (oldDS & atoms & Hs & -> & _).
    apply (shape_visited _ _ _ _ _ _ _ _ _ _ Hs) in Hin as <-.
    split; [|done]. destruct (float cutoff); [by destruct Hr|done].
  - intros oldDS.
    destruct (interfaceResidues_returns cmpx cA cB cutoff selName st oldDS [])
      as (tr & Hx & Hin); [by left|].
    exists tr. split; [|done]. unfold kept_for in Hx. by destruct (float cutoff).
Qed.

(** X6.  The edges of the comparison [abs(diff) >= float(cutoff)].  A
    cutoff that is NaN keeps nothing.  A cutoff that is zero or negative
    keeps every residue whose area differences are numbers: the result is
    then the first record of every key. *)
Theorem interfaceResidues_cutoff_edges
    cmpx cA cB cutoff selName st tr rVal st' atoms threshold :
  exec (interfaceResidues cmpx cA cB cutoff selName) st tr (Returned rVal) st' →
  Ev (CmdIterate "chA or chB" iterate_expr) (Visited atoms) ∈ tr →
  float cutoff = inr threshold →
  (is_nan threshold = true → rVal = []) ∧
  (float_le threshold (S754_zero false) = true →
   (∀ x, x ∈ atoms → is_nan (diff_of x) = false) →
   rVal = first_per_key atoms).
Proof.
  intros Hx Hin Hf.
  pose proof (interfaceResidues_result _ _ _ _ _ _ _ _ _ _ Hx Hin) as Hr.
  rewrite Hf in Hr. subst rVal. unfold threshold_filter. split.
  - intros Hnan. rewrite filter_none; [done|].
    intros y _ Hc. by destruct threshold.
  - intros Hle Hnum. rewrite filter_all; [done|].
    intros y Hy. unfold crosses, float_ge.
    apply (float_le_trans _ (S754_zero false)); [done|].
    apply float_abs_ge_zero. by apply Hnum.
Qed.
End MoreInterfaceResidues.

Lemma interfaceResidues_call_sequence_witness :
  ∃ oldDS,
    (∃ rest, sample_trace_2 = Ev (CmdGet dot_solvent) (Value oldDS) :: rest) ∧
    issued sample_trace_2
    = CmdGet dot_solvent :: prepare_cmds "cx" "c. A" "c. B"
      ++ CmdIterate "chA or chB" iterate_expr
         :: collect_cmds "cx" "interface" sample_rVal_2
            ++ cleanup_cmds "cx" "interface" oldDS ∧
    length (issued sample_trace_2) = (22 + length sample_rVal_2)%nat.
Proof.
  apply (@interfaceResidues_call_sequence sample_runtime "cx" "c. A" "c. B"
           (PyFloat (decimal 20 1)) "interface" None sample_trace_2 sample_rVal_2
           (Some sample_atoms)).
  apply play_exec with (rs := sample_replies sample_atoms 2). vm_compute. reflexivity.
Defined.

Lemma interfaceResidues_bad_cutoff_raises_late_witness :
  (Raised ValueError : outcome (list record)) = Raised ValueError ∧
  Some sample_atoms = Some sample_atoms ∧
  issued (trace_of (play (@interfaceResidues sample_runtime "cx" "c. A" "c. B"
                            (PyStr "high") "interface")
                      None (Value (PyStr "off") :: repeat (Value PyNone) 11
                            ++ Visited sample_atoms :: repeat (Value PyNone) 2)))
  = CmdGet dot_solvent :: prepare_cmds "cx" "c. A" "c. B"
    ++ [ CmdIterate "chA or chB" iterate_expr; CmdEnable "cx";
         CmdSelect ("interface" +:+ "1") "none" ].
Proof.
  apply (@interfaceResidues_bad_cutoff_raises_late sample_runtime "cx" "c. A" "c. B"
           (PyStr "high") "interface" None _ (Raised ValueError) (Some sample_atoms)
           ValueError ("chA", "1", decimal 15 1)
           [ ("chA", "1", decimal 30 1); ("chB", "7", float_neg (decimal 30 1));
             ("chB", "8", decimal 5 1) ]).
  - reflexivity.
  - apply play_exec with (rs := Value (PyStr "off") :: repeat (Value PyNone) 11
                                ++ Visited sample_atoms :: repeat (Value PyNone) 2).
    vm_compute. reflexivity.
  - intros c e' Hin. vm_compute in Hin.
    repeat (apply elem_of_cons in Hin as [Heq|Hin]; [discriminate Heq|]).
    by apply elem_of_nil in Hin.
  - vm_compute. do 12 apply list_elem_of_further. apply list_elem_of_here.
Defined.

Lemma interfaceResidues_cutoff_edges_witness :
  (is_nan (float_of_Z 0) = true → sample_rVal_0 = []) ∧
  (float_le (float_of_Z 0) (S754_zero false) = true →
   (∀ x, x ∈ sample_atoms → is_nan (diff_of x) = false) →
   sample_rVal_0 = first_per_key sample_atoms).
Proof.
  apply (@interfaceResidues_cutoff_edges sample_runtime "cx" "c. A" "c. B"
           (PyInt 0) "interface" None sample_trace_0 sample_rVal_0 (Some sample_atoms)
           sample_atoms (float_of_Z 0)).
  - apply play_exec with (rs := sample_replies sample_atoms 3). vm_compute. reflexivity.
  - do 12 apply list_elem_of_further. apply list_elem_of_here.
  - reflexivity.
Defined.

(** ** Order of effects in [initial_orientation] *)

Ltac absurd_in Hin :=
  repeat (apply elem_of_cons in Hin as [[=]|Hin]); by apply elem_of_nil in Hin.

(** X7.  [initial_orientation] wipes the session before it tries to load:
    every run begins with [cmd.reinitialize], and when [cmd.load] fails
    (a wrong path, say) the run has made exactly these two calls, with the
    reinitialization done, and raises the host's exception. *)
Theorem initial_orientation_reinitializes_first path config st tr o st' :
  exec (initial_orientation path config) st tr o st' →
  (∃ r rest, tr = Ev CmdReinitialize r :: rest) ∧
  (∀ e, Ev (CmdLoad path) (Fault e) ∈ tr →
     ∃ v, tr = [Ev CmdReinitialize (Value v); Ev (CmdLoad path) (Fault e)] ∧
          o = Raised e ∧ st' = st).
Proof.
  intros Hx. unfold initial_orientation in Hx.
  cbn [bind mbind mret script_bind script_ret cmd] in Hx.
  apply exec_call_inv in Hx as [(e0 & -> & -> & ->)|(v & tr' & -> & Hx)].
  - split; [by eexists _, _|]. intros e [[=]|Hin%elem_of_nil]%elem_of_cons. done.
  - split; [by eexists _, _|]. intros e Hin.
    apply exec_call_inv in Hx as [(e1 & -> & -> & ->)|(v1 & tr1 & -> & Hx)].
    + apply elem_of_cons in Hin as [[=]|Hin].
      apply list_elem_of_singleton in Hin. injection Hin as <-. by exists v.
    + exfalso.
      do 4 (apply exec_call_inv in Hx as [(? & -> & _)|(? & ? & -> & Hx)];
            [absurd_in Hin|]).
      destruct (py_eq_str config "1"); [|destruct (py_eq_str config "2")];
        try (apply exec_call_inv in Hx as [(? & -> & _)|(? & ? & -> & Hx)];
             [absurd_in Hin|]);
        apply exec_ret_inv in Hx as (-> & _); absurd_in Hin.
Qed.

Lemma initial_orientation_reinitializes_first_witness :
  (∃ r rest,
     [Ev CmdReinitialize (Value PyNone);
      Ev (CmdLoad "missing.pdb") (Fault (Exn "CmdException" "Unable to open file"))]
     = Ev CmdReinitialize r :: rest) ∧
  (∀ e, Ev (CmdLoad "missing.pdb") (Fault e) ∈
          [Ev CmdReinitialize (Value PyNone);
           Ev (CmdLoad "missing.pdb") (Fault (Exn "CmdException" "Unable to open file"))] →
     ∃ v, [Ev CmdReinitialize (Value PyNone);
           Ev (CmdLoad "missing.pdb") (Fault (Exn "CmdException" "Unable to open file"))]
          = [Ev CmdReinitialize (Value v); Ev (CmdLoad "missing.pdb") (Fault e)] ∧
          (Raised (Exn "CmdException" "Unable to open file") : outcome unit) = Raised e ∧
          (None : store) = None).
Proof.
  apply (initial_orientation_reinitializes_first "missing.pdb" (PyStr "1") None _ _ None).
  apply play_exec with
    (rs := [Value PyNone; Fault (Exn "CmdException" "Unable to open file")]).
  vm_compute. reflexivity.
Defined.

(** ** The colour [hydrophobicity] gives *)

Section Colours.
Context {atom : Type}.
Variable selects : string → atom → bool.

Lemma paint_app tr1 tr2 col :
  paint selects (tr1 ++ tr2) col = paint selects tr2 (paint selects tr1 col).
Proof. unfold paint. apply foldl_app. Qed.

(** The colour of an atom after a trace depends on that atom's colour
    before it only. *)
Lemma paint_ext tr (a : atom) : ∀ col1 col2,
  col1 a = col2 a → paint selects tr col1 a = paint selects tr col2 a.
Proof.
  induction tr as [|ev tr IH]; intros col1 col2 Heq; [done|].
  change (paint selects tr (paint_event selects ev col1) a
          = paint selects tr (paint_event selects ev col2) a).
  apply IH. destruct ev as [[] []|]; simpl; try done. by rewrite Heq.
Qed.

Lemma color_cmds_paint (a : atom) s x names : ∀ tr col,
  x ∈ names →
  selects (resn_selection s x) a = true →
  (∀ y, y ∈ names → y ≠ x → selects (resn_selection s y) a = false) →
  answered (color_cmd s <$> names) tr →
  paint selects tr col a = color_name x.
Proof.
  induction names as [|y names IH]; intros tr col Hin Hx Hother Ha.
  - by apply elem_of_nil in Hin.
  - apply Forall2_cons_inv_l in Ha as (ev & tr' & [v ->] & Ha & ->).
    change (paint selects tr'
              (paint_event selects (Ev (color_cmd s y) (Value v)) col) a = color_name x).
    destruct (decide (x ∈ names)) as [Hin'|Hnin].
    + apply IH; [done|done| |done]. intros z Hz. apply Hother. by right.
    + apply elem_of_cons in Hin as [->|Hin]; [|done].
      rewrite paint_frame.
      * simpl. by rewrite Hx.
      * eapply color_cmds_frame; [|done]. intros z Hz. apply Hother; [by right|].
        by intros ->.
Qed.

Section Host.
Variable resn_is : string → atom → bool.
Variable selection : string.
Hypothesis Hsel : ∀ y b, y ∈ standard_residues →
  selects (resn_selection selection y) b = selects selection b && resn_is y b.

Lemma hydrophobicity_paints_nothing st tr st' a col :
  exec (hydrophobicity selection) st tr (Returned tt) st' →
  selects selection a = false ∨ (∀ y, y ∈ standard_residues → resn_is y a = false) →
  paint selects tr col a = col a.
Proof.
  intros (tr1 & tr2 & -> & H1 & H2)%hydrophobicity_returned Ha.
  apply paint_frame. constructor; [done|]. apply Forall_app. split.
  - by eapply defines_frame.
  - eapply color_cmds_frame; [|done]. intros y Hin.
    rewrite Hsel by (by rewrite <- colouring_order_standard).
    destruct Ha as [->|Ha]; [done|]. rewrite Ha; [apply andb_false_r|].
    by rewrite <- colouring_order_standard.
Qed.

Lemma hydrophobicity_paints_residue st tr st' x a col :
  exec (hydrophobicity selection) st tr (Returned tt) st' →
  x ∈ standard_residues →
  selects selection a = true →
  resn_is x a = true →
  (∀ y, y ∈ standard_residues → resn_is y a = true → y = x) →
  paint selects tr col a = color_name x.
Proof.
  intros (tr1 & tr2 & -> & H1 & H2)%hydrophobicity_returned Hstd Hs Hr Honly.
  assert (x ∈ colouring_order) as Hord by (by rewrite colouring_order_standard).
  change (paint selects (tr1 ++ tr2) (paint_event selects (Out selection) col) a
          = color_name x).
  rewrite paint_app.
  apply (color_cmds_paint a selection x colouring_order); [done| | |done].
  - rewrite Hsel by done. by rewrite Hs, Hr.
  - intros y Hy Hne. rewrite Hsel by (by rewrite <- colouring_order_standard).
    destruct (resn_is y a) eqn:Hy'; [|apply andb_false_r].
    destruct Hne. apply Honly; [|done]. by rewrite <- colouring_order_standard.
Qed.
End Host.

(** X8.  Where the host reads ["(selection and resn X)"] as the atoms of
    the selection whose residue name is [X], an atom of the selection whose
    residue name is the standard name [x] (and no other of the twenty) has,
    after a complete run of [hydrophobicity], the colour [color_x3] that
    the run defined for [x], whatever colour it had before. *)
Theorem hydrophobicity_colors_by_residue
    (resn_is : string → atom → bool) selection st tr st' x a col :
  (∀ y b, y ∈ standard_residues →
     selects (resn_selection selection y) b = selects selection b && resn_is y b) →
  exec (hydrophobicity selection) st tr (Returned tt) st' →
  x ∈ standard_residues →
  selects selection a = true →
  resn_is x a = true →
  (∀ y, y ∈ standard_residues → resn_is y a = true → y = x) →
  paint selects tr col a = color_name x ∧
  ∃ rgb v, Ev (CmdSetColor (color_name x) rgb) (Value v) ∈ tr.
Proof.
  intros Hsel Hx Hstd Hs Hr Honly. split.
  - by eapply hydrophobicity_paints_residue.
  - apply hydrophobicity_returned in Hx as (tr1 & tr2 & -> & H1 & H2).
    assert (x ∈ colouring_order) as Hord by (by rewrite colouring_order_standard).
    apply list_elem_of_lookup in Hord as [i Hi].
    destruct (Forall2_lookup_l _ _ _ _ _ H1 Hi) as (ev & Hev & rgb & v & ->).
    exists rgb, v. right. apply elem_of_app. left. by eapply list_elem_of_lookup_2.
Qed.

(** X9.  Under the same reading, colouring twice is colouring once: for an
    atom whose residue name is at most one of the twenty, the colour after
    two complete runs of [hydrophobicity] on the same selection, one after
    the other, is the colour after the first. *)
Theorem hydrophobicity_twice
    (resn_is : string → atom → bool) selection st1 tr1 st1' st2 tr2 st2' a col :
  (∀ y b, y ∈ standard_residues →
     selects (resn_selection selection y) b = selects selection b && resn_is y b) →
  exec (hydrophobicity selection) st1 tr1 (Returned tt) st1' →
  exec (hydrophobicity selection) st2 tr2 (Returned tt) st2' →
  (∀ y z, y ∈ standard_residues → z ∈ standard_residues →
     resn_is y a = true → resn_is z a = true → y = z) →
  paint selects (tr1 ++ tr2) col a = paint selects tr1 col a.
Proof.
  intros Hsel Hx1 Hx2 Honly. rewrite paint_app.
  destruct (selects selection a) eqn:Hs.
  - destruct (decide (Exists (fun y => resn_is y a = true) standard_residues)) as [He|Hn].
    + apply Exists_exists in He as (x & Hin & Hr).
      rewrite (hydrophobicity_paints_residue resn_is selection Hsel _ _ _ x a _ Hx2);
        [|done|done|done|by intros y Hy Hy'; apply Honly].
      symmetry. apply (hydrophobicity_paints_residue resn_is selection Hsel _ _ _ x a _ Hx1);
        [done|done|done|by intros y Hy Hy'; apply Honly].
    + apply (hydrophobicity_paints_nothing resn_is selection Hsel _ _ _ a _ Hx2).
      right. intros y Hy. destruct (resn_is y a) eqn:Hr; [|done].
      destruct Hn. apply Exists_exists. eauto.
  - apply (hydrophobicity_paints_nothing resn_is selection Hsel _ _ _ a _ Hx2). by left.
Qed.
End Colours.

Lemma hydrophobicity_colors_by_residue_witness :
  paint sample_selects
    (trace_of (play (hydrophobicity "all") None (repeat (Value PyNone) 40)))
    (fun _ => "green") (true, "leu") = color_name "leu" ∧
  ∃ rgb v,
    Ev (CmdSetColor (color_name "leu") rgb) (Value v) ∈
      trace_of (play (hydrophobicity "all") None (repeat (Value PyNone) 40)).
Proof.
  apply (hydrophobicity_colors_by_residue sample_selects sample_resn_is "all"
           None _ None "leu" (true, "leu") (fun _ => "green")).
  - intros y b _. apply sample_selects_resn.
  - apply play_exec with (rs := repeat (Value PyNone) 40). vm_compute. reflexivity.
  - apply (bool_decide_unpack ("leu" ∈ standard_residues)). vm_compute. exact I.
  - reflexivity.
  - reflexivity.
  - intros y _ Hy. by apply String.eqb_eq in Hy.
Defined.

Lemma hydrophobicity_twice_witness :
  paint sample_selects
    (trace_of (play (hydrophobicity "all") None (repeat (Value PyNone) 40))
     ++ trace_of (play (hydrophobicity "all") None (repeat (Value PyNone) 40)))
    (fun _ => "green") (true, "leu")
  = paint sample_selects
      (trace_of (play (hydrophobicity "all") None (repeat (Value PyNone) 40)))
      (fun _ => "green") (true, "leu").
Proof.
  apply (hydrophobicity_twice sample_selects sample_resn_is "all"
           None _ None None _ None (true, "leu") (fun _ => "green")).
  - intros y b _. apply sample_selects_resn.
  - apply play_exec with (rs := repeat (Value PyNone) 40). vm_compute. reflexivity.
  - apply play_exec with (rs := repeat (Value PyNone) 40). vm_compute. reflexivity.
  - intros y z _ _ Hy Hz. apply String.eqb_eq in Hy, Hz. congruence.
Defined.
